(** * Checksums and checksum diffs of core/common/checksums.py

    A shallow embedding of [Checksum], [ChecksumModel] and [ChecksumDiff]
    and the properties of the canonical serializer, the checksum
    generator, the cleanup policy, the per-resource checksum cache and
    the resource-set differ. *)

From Stdlib Require Import ZArith Ascii String List Lia OrdersEx DecimalString.
From stdpp Require Import base option list sorting strings gmap.

Set Warnings "-register-all".

Local Open Scope Z_scope.

(** ** Python values

    The JSON-like data that reaches the checksum code: [None], booleans,
    integers, strings, UUIDs (kept as their [str()] form), lists and
    dictionaries with string keys.  A dictionary is an association list in
    insertion order; a well-formed one has pairwise distinct keys.  A
    character of a [string] stands for the code point of the same number
    (0..255).  Floating-point numbers are outside the model. *)

Inductive value : Type :=
  | VNone
  | VBool (b : bool)
  | VInt (z : Z)
  | VStr (s : string)
  | VUUID (s : string)
  | VList (l : list value)
  | VDict (d : list (string * value)).

Definition dict : Type := list (string * value).

Definition is_list (v : value) : bool :=
  match v with VList _ => true | _ => false end.

Definition is_dict (v : value) : bool :=
  match v with VDict _ => true | _ => false end.

(** [isinstance(obj, list) and len(obj) == 1] *)
Definition is_singleton_list (v : value) : bool :=
  match v with VList [_] => true | _ => false end.

(** Python truthiness: [bool(v)]. *)
Definition truthy (v : value) : bool :=
  match v with
  | VNone => false
  | VBool b => b
  | VInt z => negb (z =? 0)
  | VStr s => negb (String.eqb s EmptyString)
  | VUUID _ => true
  | VList l => match l with [] => false | _ => true end
  | VDict d => match d with [] => false | _ => true end
  end.

(** [d.keys()], [d[k]] / [d.get(k)], [d[k] = v] and [d.pop(k)] on
    insertion-ordered dictionaries. *)
Definition dict_keys {V} (d : list (string * V)) : list string := d.*1.

Fixpoint dict_get {V} (k : string) (d : list (string * V)) : option V :=
  match d with
  | [] => None
  | (k', v) :: d' => if String.eqb k k' then Some v else dict_get k d'
  end.

Fixpoint dict_set {V} (k : string) (v : V) (d : list (string * V))
    : list (string * V) :=
  match d with
  | [] => [(k, v)]
  | (k', v') :: d' =>
      if String.eqb k k' then (k', v) :: d' else (k', v') :: dict_set k v d'
  end.

Fixpoint dict_pop {V} (k : string) (d : list (string * V)) : list (string * V) :=
  match d with
  | [] => []
  | (k', v') :: d' =>
      if String.eqb k k' then d' else (k', v') :: dict_pop k d'
  end.

(** [sep.join(parts)] *)
Fixpoint join (sep : string) (parts : list string) : string :=
  match parts with
  | [] => EmptyString
  | [p] => p
  | p :: ps => p +:+ sep +:+ join sep ps
  end.

(** ** json.dumps

    The standard encoder with its default settings ([ensure_ascii], the
    separators [", "] and [": "]).  A UUID is not JSON serializable: the
    encoder raises [TypeError], here [None]. *)
Module Json.

Definition hex_digit (n : Z) : ascii :=
  if n <? 10 then ascii_of_N (Z.to_N (48 + n))
  else ascii_of_N (Z.to_N (87 + n)).

Definition hex_byte (n : Z) : string :=
  String (hex_digit (n / 16)) (String (hex_digit (n mod 16)) EmptyString).

Definition code (c : ascii) : Z := Z.of_N (N_of_ascii c).

Definition dquote : ascii := ascii_of_N 34.
Definition backslash : ascii := ascii_of_N 92.

(** One character of [py_encode_basestring_ascii]. *)
Definition escape_char (c : ascii) : string :=
  let n := code c in
  if n =? 34 then String backslash (String dquote EmptyString)
  else if n =? 92 then String backslash (String backslash EmptyString)
  else if n =? 8 then String backslash "b"
  else if n =? 12 then String backslash "f"
  else if n =? 10 then String backslash "n"
  else if n =? 13 then String backslash "r"
  else if n =? 9 then String backslash "t"
  else if (32 <=? n) && (n <=? 126) then String c EmptyString
  else String backslash "u00" +:+ hex_byte n.

Definition escape (s : string) : string :=
  String.concat EmptyString (escape_char <$> list_ascii_of_string s).

(** [json.dumps] of a [str]. *)
Definition dumps_str (s : string) : string :=
  String dquote (escape s +:+ String dquote EmptyString).

(** [json.dumps] of an [int]. *)
Definition dumps_int (z : Z) : string :=
  DecimalString.NilZero.string_of_int (Z.to_int z).

Fixpoint dumps (v : value) : option string :=
  match v with
  | VNone => Some "null"
  | VBool true => Some "true"
  | VBool false => Some "false"
  | VInt z => Some (dumps_int z)
  | VStr s => Some (dumps_str s)
  | VUUID _ => None
  | VList l =>
      parts ← (fix items (l : list value) : option (list string) :=
                 match l with
                 | [] => Some []
                 | x :: l' =>
                     p ← dumps x; ps ← items l'; Some (p :: ps)
                 end) l;
      Some ("[" +:+ join ", " parts +:+ "]")
  | VDict d =>
      parts ← (fix items (d : list (string * value)) : option (list string) :=
                 match d with
                 | [] => Some []
                 | (k, x) :: d' =>
                     p ← dumps x; ps ← items d';
                     Some ((dumps_str k +:+ ": " +:+ p) :: ps)
                 end) d;
      Some ("{" +:+ join ", " parts +:+ "}")
  end.

End Json.

(** ** hashlib.new('MD5')

    The MD5 message digest (RFC 1321) on byte strings, with 32-bit words
    as [Z] and their wrap-around written out. *)
Module MD5.

Definition mask32 : Z := 0xffffffff.

Definition add32 (a b : Z) : Z := Z.land (a + b) mask32.

Definition not32 (a : Z) : Z := Z.lxor a mask32.

Definition rotl32 (x c : Z) : Z :=
  Z.land (Z.lor (Z.shiftl x c) (Z.shiftr x (32 - c))) mask32.

Definition K : list Z :=
  [0xd76aa478; 0xe8c7b756; 0x242070db; 0xc1bdceee; 0xf57c0faf; 0x4787c62a; 0xa8304613; 0xfd469501;
   0x698098d8; 0x8b44f7af; 0xffff5bb1; 0x895cd7be; 0x6b901122; 0xfd987193; 0xa679438e; 0x49b40821;
   0xf61e2562; 0xc040b340; 0x265e5a51; 0xe9b6c7aa; 0xd62f105d; 0x02441453; 0xd8a1e681; 0xe7d3fbc8;
   0x21e1cde6; 0xc33707d6; 0xf4d50d87; 0x455a14ed; 0xa9e3e905; 0xfcefa3f8; 0x676f02d9; 0x8d2a4c8a;
   0xfffa3942; 0x8771f681; 0x6d9d6122; 0xfde5380c; 0xa4beea44; 0x4bdecfa9; 0xf6bb4b60; 0xbebfbc70;
   0x289b7ec6; 0xeaa127fa; 0xd4ef3085; 0x04881d05; 0xd9d4d039; 0xe6db99e5; 0x1fa27cf8; 0xc4ac5665;
   0xf4292244; 0x432aff97; 0xab9423a7; 0xfc93a039; 0x655b59c3; 0x8f0ccc92; 0xffeff47d; 0x85845dd1;
   0x6fa87e4f; 0xfe2ce6e0; 0xa3014314; 0x4e0811a1; 0xf7537e82; 0xbd3af235; 0x2ad7d2bb; 0xeb86d391].

Definition shifts : list Z :=
  [7; 12; 17; 22; 7; 12; 17; 22; 7; 12; 17; 22; 7; 12; 17; 22;
   5; 9; 14; 20; 5; 9; 14; 20; 5; 9; 14; 20; 5; 9; 14; 20;
   4; 11; 16; 23; 4; 11; 16; 23; 4; 11; 16; 23; 4; 11; 16; 23;
   6; 10; 15; 21; 6; 10; 15; 21; 6; 10; 15; 21; 6; 10; 15; 21].

(** [n] bytes of [x], least significant first. *)
Fixpoint le_bytes (n : nat) (x : Z) : list Z :=
  match n with
  | O => []
  | S n' => Z.land x 0xff :: le_bytes n' (Z.shiftr x 8)
  end.

Definition pad (msg : list Z) : list Z :=
  let len := Z.of_nat (length msg) in
  msg ++ [0x80] ++ replicate (Z.to_nat ((55 - len) mod 64)) 0
      ++ le_bytes 8 (Z.land (8 * len) 0xffffffffffffffff).

Fixpoint le_words (n : nat) (bytes : list Z) : list Z :=
  match n, bytes with
  | S n', b0 :: b1 :: b2 :: b3 :: rest =>
      (b0 + Z.shiftl b1 8 + Z.shiftl b2 16 + Z.shiftl b3 24) :: le_words n' rest
  | _, _ => []
  end.

Definition state : Type := Z * Z * Z * Z.

Definition init : state := (0x67452301, 0xefcdab89, 0x98badcfe, 0x10325476).

Definition round (M : list Z) (st : state) (i : nat) : state :=
  let '(a, b, c, d) := st in
  let iz := Z.of_nat i in
  let '(f, g) :=
    if iz <? 16 then (Z.lor (Z.land b c) (Z.land (not32 b) d), iz)
    else if iz <? 32 then (Z.lor (Z.land d b) (Z.land (not32 d) c), (5 * iz + 1) mod 16)
    else if iz <? 48 then (Z.lxor (Z.lxor b c) d, (3 * iz + 5) mod 16)
    else (Z.lxor c (Z.lor b (not32 d)), (7 * iz) mod 16) in
  let f' := add32 (add32 (add32 f a) (nth i K 0)) (nth (Z.to_nat g) M 0) in
  (d, add32 b (rotl32 f' (nth i shifts 0)), b, c).

Definition block (st : state) (M : list Z) : state :=
  let '(a0, b0, c0, d0) := st in
  let '(a, b, c, d) := fold_left (round M) (seq 0 64) st in
  (add32 a0 a, add32 b0 b, add32 c0 c, add32 d0 d).

Fixpoint blocks (n : nat) (st : state) (words : list Z) : state :=
  match n with
  | O => st
  | S n' => blocks n' (block st (take 16 words)) (drop 16 words)
  end.

Definition digest (msg : list Z) : list Z :=
  let words := le_words (length msg + 72) (pad msg) in
  let '(a, b, c, d) := blocks (length words / 16) init words in
  le_bytes 4 a ++ le_bytes 4 b ++ le_bytes 4 c ++ le_bytes 4 d.

Definition hexdigest (msg : list Z) : string :=
  String.concat EmptyString (Json.hex_byte <$> digest msg).

End MD5.

(** [s.encode('utf-8')] for code points below 256. *)
Definition encode_utf8 (s : string) : list Z :=
  c ← list_ascii_of_string s;
  let n := Json.code c in
  if n <? 128 then [n]
  else [Z.lor 0xc0 (Z.shiftr n 6); Z.lor 0x80 (Z.land n 0x3f)].

(** ** class Checksum *)

(** [obj[key]] on a dictionary: [KeyError] (here [None]) unless [key] is one
    of its keys. *)
Definition dict_subscript (d : dict) (key : value) : option value :=
  match key with
  | VStr k => dict_get k d
  | _ => None
  end.

Section Checksum.

(** [generic_sort] of core.common.utils is not among the sources and is
    taken as a parameter: it returns the sorted list, or raises (here
    [None]) on items it cannot compare. *)
Variable generic_sort : list value → option (list value).

(** The loop [for key in keys: acc += f"{cls._serialize(obj[key])},"],
    with the recursive call passed as [ser]. *)
Fixpoint serialize_items (ser : value → option string) (obj : dict)
    (keys : list value) (acc : string) : option string :=
  match keys with
  | [] => Some acc
  | key :: keys' =>
      v ← dict_subscript obj key;
      s ← ser v;
      serialize_items ser obj keys' (acc +:+ s +:+ ",")
  end.

(** [Checksum._serialize].  [depth] is the number of nested calls the
    interpreter still allows: at [0] the call raises [RecursionError].
    Every exception is [None]. *)
Fixpoint _serialize (depth : nat) (obj : value) : option string :=
  match depth with
  | O => None
  | S depth' =>
      let obj := match obj with VList [x] => x | _ => obj end in
      match obj with
      | VList l =>
          sorted ← generic_sort l;
          parts ← mapM (_serialize depth') sorted;
          Some ("[" +:+ join "," parts +:+ "]")
      | VDict d =>
          keys ← generic_sort (VStr <$> dict_keys d);
          dumped ← Json.dumps (VList keys);
          acc ← serialize_items (_serialize depth') d keys ("{" +:+ dumped);
          Some (acc +:+ "}")
      | VUUID s => Json.dumps (VStr s)
      | _ => Json.dumps obj
      end
  end.

(** The recursion limit in force when [generate] is called. *)
Variable recursion_limit : nat.

(** [Checksum.generate] with its default [hash_algorithm='MD5']. *)
Definition generate (obj : value) : option string :=
  serialized_obj ← _serialize recursion_limit obj;
  Some (MD5.hexdigest (encode_utf8 serialized_obj)).

(** ** ChecksumModel: the static methods *)

(** [key.startswith('__')] *)
Definition startswith_dunder (key : string) : bool := String.prefix "__" key.

(** [value_copied = value.copy()] followed by the loop that pops every
    key of [value] starting with a double underscore. *)
Definition pop_dunder_keys (value : dict) : dict :=
  fold_left
    (fun value_copied extra_key =>
       if startswith_dunder extra_key then dict_pop extra_key value_copied
       else value_copied)
    (dict_keys value) value.

(** One iteration of the loop of [_cleanup] over [fields.items()]. *)
Definition cleanup_item (result : dict) (item : string * value) : dict :=
  let '(key, value) := item in
  match value with
  | VNone => result
  | _ =>
      if String.eqb key "retired" && negb (truthy value) then result
      else if String.eqb key "is_active" && truthy value then result
      else if String.eqb key "extras" then
        if negb (truthy value) then result
        else
          let value :=
            match value with
            | VDict extras =>
                if existsb startswith_dunder (dict_keys extras)
                then VDict (pop_dunder_keys extras)
                else value
            | _ => value
            end in
          dict_set key value result
      else dict_set key value result
  end.

(** [ChecksumModel._cleanup] *)
Definition _cleanup (fields : value) : value :=
  match fields with
  | VDict d => VDict (fold_left cleanup_item d [])
  | _ => fields
  end.

(** [ChecksumModel.generate_checksum] *)
Definition generate_checksum (data : value) : option string :=
  generate (_cleanup data).

(** [ChecksumModel.generate_checksum_from_many] *)
Definition generate_checksum_from_many (data : value) : option string :=
  checksums ←
    match data with
    | VList l => mapM (fun _data => generate (_cleanup _data)) l
    | _ => c ← generate (_cleanup data); Some [c]
    end;
  match checksums with
  | [c] => Some c
  | _ => generate (VList (VStr <$> checksums))
  end.

End Checksum.

(** ** Stateful methods

    A method that reads and updates its object and may raise: it maps the
    object to [None] (an exception) or to its return value and the updated
    object. *)
Definition method (S A : Type) : Type := S → option (A * S).

Definition ret {S A} (a : A) : method S A := fun self => Some (a, self).

Definition bind {S A B} (m : method S A) (k : A → method S B) : method S B :=
  fun self =>
    match m self with
    | Some (a, self') => k a self'
    | None => None
    end.

Definition read {S A} (f : S → A) : method S A := fun self => Some (f self, self).

Definition update {S} (f : S → S) : method S unit := fun self => Some (tt, f self).

Definition try {S A} (o : option A) : method S A :=
  fun self => match o with Some a => Some (a, self) | None => None end.

Notation "'let!' x ':=' m 'in' k" := (bind m (fun x => k))
  (at level 10, x pattern, m at level 100, k at level 200).

Notation "m ';;' k" := (bind m (fun _ => k))
  (at level 100, k at level 200, right associativity).

(** A [for] loop whose body is a method. *)
Fixpoint for_each {S A} (l : list A) (body : A → method S unit) : method S unit :=
  match l with
  | [] => ret tt
  | x :: l' => body x ;; for_each l' body
  end.

(** A stored [checksums] mapping: checksum key to digest or [None]. *)
Abbreviation checksums_map := (gmap string (option string)).

(** ** class ChecksumModel: the instance methods

    An object of the model is a saved instance: it has a row, whose
    [checksums] column is [saved_checksums].  For such an instance
    [save(update_fields=['checksums'])] and [refresh_from_db()] return.
    An instance without a row, on which Django raises in both, is outside
    the model. *)

Record ChecksumModel : Type := {
  attributes : dict;                     (* what [getattr(self, field)] reads *)
  checksums : option checksums_map;      (* the JSON field, [None] for null *)
  saved_checksums : option checksums_map (* the column of the stored row *)
}.

Definition set_checksums_field (c : option checksums_map) (self : ChecksumModel)
    : ChecksumModel :=
  {| attributes := attributes self; checksums := c;
     saved_checksums := saved_checksums self |}.

(** [self.save(update_fields=['checksums'])] *)
Definition save_checksums (self : ChecksumModel) : ChecksumModel :=
  {| attributes := attributes self; checksums := checksums self;
     saved_checksums := checksums self |}.

(** [self.refresh_from_db()], as far as the checksums go. *)
Definition refresh_from_db (self : ChecksumModel) : ChecksumModel :=
  {| attributes := attributes self; checksums := saved_checksums self;
     saved_checksums := saved_checksums self |}.

(** The truth value of a Python string, and of [self.checksums]. *)
Definition truthy_str (s : string) : bool := negb (String.eqb s EmptyString).

Definition truthy_checksums (c : option checksums_map) : bool :=
  match c with
  | Some m => negb (bool_decide (m = ∅))
  | None => false
  end.

(** A digest or [None] as a Python value. *)
Definition digest_value (o : option string) : value :=
  match o with Some h => VStr h | None => VNone end.

Section ChecksumModel.

Variable generic_sort : list value → option (list value).
Variable recursion_limit : nat.

(** What [Toggle.get('CHECKSUMS_TOGGLE')] answers; the toggle model is
    not among the sources. *)
Variable CHECKSUMS_TOGGLE : bool.

(** The class attributes and the methods a resource type overrides. *)
Variable STANDARD_CHECKSUM_KEY : string.
Variable SMART_CHECKSUM_KEY : string.
Variable get_standard_checksum_fields : ChecksumModel → option value.
Variable get_smart_checksum_fields : ChecksumModel → option value.

(** [settings.TEST_MODE], and the effect of the [calculate_checksums]
    task of core.common.tasks on the stored row; the task is not among
    the sources.  In test mode the task runs within the call.  Otherwise
    [apply_async] hands it to a queue, where it runs, if at all, after
    the call has returned: the call itself changes neither the object nor
    the row (a broker that refuses the task is outside the model). *)
Variable TEST_MODE : bool.
Variable calculate_checksums : option checksums_map → option (option checksums_map).

Definition queue_checksum_calculation : method ChecksumModel unit :=
  if TEST_MODE then
    let! row := read saved_checksums in
    let! row' := try (calculate_checksums row) in
    update (fun self =>
      refresh_from_db {| attributes := attributes self;
                         checksums := checksums self;
                         saved_checksums := row' |})
  else ret tt.

Definition has_standard_checksum : method ChecksumModel bool :=
  if truthy_str STANDARD_CHECKSUM_KEY then
    let! c := read checksums in
    let! m := try c in
    ret (bool_decide (is_Some (m !! STANDARD_CHECKSUM_KEY)))
  else ret true.

Definition has_smart_checksum : method ChecksumModel bool :=
  if truthy_str SMART_CHECKSUM_KEY then
    let! c := read checksums in
    let! m := try c in
    ret (bool_decide (is_Some (m !! SMART_CHECKSUM_KEY)))
  else ret true.

Definition has_all_checksums : method ChecksumModel bool :=
  let! std := has_standard_checksum in
  if std then has_smart_checksum else ret false.

Definition _calculate_standard_checksum : method ChecksumModel (option string) :=
  let! fields := (fun self => try (get_standard_checksum_fields self) self) in
  match fields with
  | VNone => ret None
  | _ =>
      let! h := try (generate_checksum generic_sort recursion_limit fields) in
      ret (Some h)
  end.

Definition _calculate_smart_checksum : method ChecksumModel (option string) :=
  let! fields := (fun self => try (get_smart_checksum_fields self) self) in
  if truthy fields then
    let! h := try (generate_checksum generic_sort recursion_limit fields) in
    ret (Some h)
  else ret None.

Definition get_all_checksums : method ChecksumModel (option checksums_map) :=
  if CHECKSUMS_TOGGLE then
    let checksums : checksums_map := ∅ in
    let! checksums :=
      if truthy_str STANDARD_CHECKSUM_KEY then
        let! h := _calculate_standard_checksum in
        ret (<[STANDARD_CHECKSUM_KEY := h]> checksums)
      else ret checksums in
    let! checksums :=
      if truthy_str SMART_CHECKSUM_KEY then
        let! h := _calculate_smart_checksum in
        ret (<[SMART_CHECKSUM_KEY := h]> checksums)
      else ret checksums in
    ret (Some checksums)
  else ret None.

Definition _calculate_checksums : method ChecksumModel (option checksums_map) :=
  get_all_checksums.

Definition set_checksums : method ChecksumModel unit :=
  if CHECKSUMS_TOGGLE then
    let! c := _calculate_checksums in
    update (set_checksums_field c) ;;
    update save_checksums
  else ret tt.

Definition get_checksums (queue recalculate : bool)
    : method ChecksumModel (option checksums_map) :=
  if CHECKSUMS_TOGGLE then
    let! c := read checksums in
    let! complete :=
      if negb recalculate && truthy_checksums c then has_all_checksums
      else ret false in
    if complete then read checksums
    else if queue then
      queue_checksum_calculation ;;
      let! c := read checksums in
      ret (Some (if truthy_checksums c then default ∅ c else ∅))
    else
      set_checksums ;;
      read checksums
  else ret None.

(** The [checksum] property. *)
Definition checksum : method ChecksumModel (option string) :=
  if CHECKSUMS_TOGGLE then
    let recompute : method ChecksumModel (option string) :=
      get_checksums false false ;;
      let! c := read checksums in
      let! m := try c in
      ret (default None (m !! STANDARD_CHECKSUM_KEY)) in
    let! c := read checksums in
    match c ≫= (.!! STANDARD_CHECKSUM_KEY) with
    | Some (Some h) => if truthy_str h then ret (Some h) else recompute
    | _ => recompute
    end
  else ret None.

(** [get_checksum_fields] of the base class, for a class with the given
    [CHECKSUM_INCLUSIONS]; [getattr] raises on a missing attribute. *)
Definition get_checksum_fields (CHECKSUM_INCLUSIONS : list string)
    (self : ChecksumModel) : option value :=
  items ← mapM (fun field => v ← dict_get field (attributes self); Some (field, v))
               CHECKSUM_INCLUSIONS;
  Some (VDict (fold_left (fun d item => dict_set item.1 item.2 d) items [])).

End ChecksumModel.

(** The class attributes and methods of [ChecksumModel] itself, which
    a resource type inherits unless it overrides them. *)
Module Base.

Definition CHECKSUM_INCLUSIONS : list string := [].
Definition STANDARD_CHECKSUM_KEY : string := "standard".
Definition SMART_CHECKSUM_KEY : string := "smart".

Definition get_standard_checksum_fields (self : ChecksumModel) : option value :=
  get_checksum_fields CHECKSUM_INCLUSIONS self.

Definition get_smart_checksum_fields (self : ChecksumModel) : option value :=
  Some (VDict []).

End Base.

(** ** class ChecksumDiff *)

(** A resource of a queryset: its primary key, its attributes by name, its
    [retired] flag and its stored [checksums]. *)
Record resource : Type := {
  res_id : Z;
  res_attrs : gmap string string;
  res_retired : bool;
  res_checksums : option checksums_map
}.

(** An identity key is what pydash [get(resource, identity)] returns: the
    attribute, or [None] when the resource has none of that name. *)
Abbreviation key := (option string).

(** The entry [{'checksums': ..., 'id': ...}] of a snapshot map. *)
Record info : Type := {
  info_checksums : option checksums_map;
  info_id : Z
}.

Abbreviation resource_map := (gmap (option string) info).

(** What [get_struct] returns: a bare count, or
    [{'total': total, identity: keys}].  The keys are listed in the order
    in which a Python set of strings is iterated, which the language
    leaves open (it changes with the hash seed of the interpreter): the
    listing is kept as the set of its keys. *)
Inductive struct : Type :=
  | Count (total : nat)
  | Listing (total : nat) (identity : string) (keys : gset key).

Module ChecksumDiff.

Record t : Type := {
  resources1 : list resource;
  resources2 : list resource;
  identity : string;
  verbosity : Z;
  same : resource_map;
  same_smart : resource_map;
  changed_smart : resource_map;
  changed_standard : resource_map;
  result : list (string * struct);
  _resources1_map : option resource_map;
  _resources1_map_retired : option resource_map;
  _resources2_map : option resource_map;
  _resources2_map_retired : option resource_map;
  _resources1_set : option (gset key);
  _resources1_set_retired : option (gset key);
  _resources2_set : option (gset key);
  _resources2_set_retired : option (gset key);
  _retired : option resource_map
}.

Definition set_same (v : resource_map) (self : t) : t :=
  {| resources1 := resources1 self;
     resources2 := resources2 self;
     identity := identity self;
     verbosity := verbosity self;
     same := v;
     same_smart := same_smart self;
     changed_smart := changed_smart self;
     changed_standard := changed_standard self;
     result := result self;
     _resources1_map := _resources1_map self;
     _resources1_map_retired := _resources1_map_retired self;
     _resources2_map := _resources2_map self;
     _resources2_map_retired := _resources2_map_retired self;
     _resources1_set := _resources1_set self;
     _resources1_set_retired := _resources1_set_retired self;
     _resources2_set := _resources2_set self;
     _resources2_set_retired := _resources2_set_retired self;
     _retired := _retired self |}.

Definition set_same_smart (v : resource_map) (self : t) : t :=
  {| resources1 := resources1 self;
     resources2 := resources2 self;
     identity := identity self;
     verbosity := verbosity self;
     same := same self;
     same_smart := v;
     changed_smart := changed_smart self;
     changed_standard := changed_standard self;
     result := result self;
     _resources1_map := _resources1_map self;
     _resources1_map_retired := _resources1_map_retired self;
     _resources2_map := _resources2_map self;
     _resources2_map_retired := _resources2_map_retired self;
     _resources1_set := _resources1_set self;
     _resources1_set_retired := _resources1_set_retired self;
     _resources2_set := _resources2_set self;
     _resources2_set_retired := _resources2_set_retired self;
     _retired := _retired self |}.

Definition set_changed_smart (v : resource_map) (self : t) : t :=
  {| resources1 := resources1 self;
     resources2 := resources2 self;
     identity := identity self;
     verbosity := verbosity self;
     same := same self;
     same_smart := same_smart self;
     changed_smart := v;
     changed_standard := changed_standard self;
     result := result self;
     _resources1_map := _resources1_map self;
     _resources1_map_retired := _resources1_map_retired self;
     _resources2_map := _resources2_map self;
     _resources2_map_retired := _resources2_map_retired self;
     _resources1_set := _resources1_set self;
     _resources1_set_retired := _resources1_set_retired self;
     _resources2_set := _resources2_set self;
     _resources2_set_retired := _resources2_set_retired self;
     _retired := _retired self |}.

Definition set_changed_standard (v : resource_map) (self : t) : t :=
  {| resources1 := resources1 self;
     resources2 := resources2 self;
     identity := identity self;
     verbosity := verbosity self;
     same := same self;
     same_smart := same_smart self;
     changed_smart := changed_smart self;
     changed_standard := v;
     result := result self;
     _resources1_map := _resources1_map self;
     _resources1_map_retired := _resources1_map_retired self;
     _resources2_map := _resources2_map self;
     _resources2_map_retired := _resources2_map_retired self;
     _resources1_set := _resources1_set self;
     _resources1_set_retired := _resources1_set_retired self;
     _resources2_set := _resources2_set self;
     _resources2_set_retired := _resources2_set_retired self;
     _retired := _retired self |}.

Definition set_result (v : list (string * struct)) (self : t) : t :=
  {| resources1 := resources1 self;
     resources2 := resources2 self;
     identity := identity self;
     verbosity := verbosity self;
     same := same self;
     same_smart := same_smart self;
     changed_smart := changed_smart self;
     changed_standard := changed_standard self;
     result := v;
     _resources1_map := _resources1_map self;
     _resources1_map_retired := _resources1_map_retired self;
     _resources2_map := _resources2_map self;
     _resources2_map_retired := _resources2_map_retired self;
     _resources1_set := _resources1_set self;
     _resources1_set_retired := _resources1_set_retired self;
     _resources2_set := _resources2_set self;
     _resources2_set_retired := _resources2_set_retired self;
     _retired := _retired self |}.

Definition set_resources1_maps (a : option resource_map) (r : option resource_map) (self : t) : t :=
  {| resources1 := resources1 self;
     resources2 := resources2 self;
     identity := identity self;
     verbosity := verbosity self;
     same := same self;
     same_smart := same_smart self;
     changed_smart := changed_smart self;
     changed_standard := changed_standard self;
     result := result self;
     _resources1_map := a;
     _resources1_map_retired := r;
     _resources2_map := _resources2_map self;
     _resources2_map_retired := _resources2_map_retired self;
     _resources1_set := _resources1_set self;
     _resources1_set_retired := _resources1_set_retired self;
     _resources2_set := _resources2_set self;
     _resources2_set_retired := _resources2_set_retired self;
     _retired := _retired self |}.

Definition set_resources2_maps (a : option resource_map) (r : option resource_map) (self : t) : t :=
  {| resources1 := resources1 self;
     resources2 := resources2 self;
     identity := identity self;
     verbosity := verbosity self;
     same := same self;
     same_smart := same_smart self;
     changed_smart := changed_smart self;
     changed_standard := changed_standard self;
     result := result self;
     _resources1_map := _resources1_map self;
     _resources1_map_retired := _resources1_map_retired self;
     _resources2_map := a;
     _resources2_map_retired := r;
     _resources1_set := _resources1_set self;
     _resources1_set_retired := _resources1_set_retired self;
     _resources2_set := _resources2_set self;
     _resources2_set_retired := _resources2_set_retired self;
     _retired := _retired self |}.

Definition set_resources1_set (v : option (gset key)) (self : t) : t :=
  {| resources1 := resources1 self;
     resources2 := resources2 self;
     identity := identity self;
     verbosity := verbosity self;
     same := same self;
     same_smart := same_smart self;
     changed_smart := changed_smart self;
     changed_standard := changed_standard self;
     result := result self;
     _resources1_map := _resources1_map self;
     _resources1_map_retired := _resources1_map_retired self;
     _resources2_map := _resources2_map self;
     _resources2_map_retired := _resources2_map_retired self;
     _resources1_set := v;
     _resources1_set_retired := _resources1_set_retired self;
     _resources2_set := _resources2_set self;
     _resources2_set_retired := _resources2_set_retired self;
     _retired := _retired self |}.

Definition set_resources1_set_retired (v : option (gset key)) (self : t) : t :=
  {| resources1 := resources1 self;
     resources2 := resources2 self;
     identity := identity self;
     verbosity := verbosity self;
     same := same self;
     same_smart := same_smart self;
     changed_smart := changed_smart self;
     changed_standard := changed_standard self;
     result := result self;
     _resources1_map := _resources1_map self;
     _resources1_map_retired := _resources1_map_retired self;
     _resources2_map := _resources2_map self;
     _resources2_map_retired := _resources2_map_retired self;
     _resources1_set := _resources1_set self;
     _resources1_set_retired := v;
     _resources2_set := _resources2_set self;
     _resources2_set_retired := _resources2_set_retired self;
     _retired := _retired self |}.

Definition set_resources2_set (v : option (gset key)) (self : t) : t :=
  {| resources1 := resources1 self;
     resources2 := resources2 self;
     identity := identity self;
     verbosity := verbosity self;
     same := same self;
     same_smart := same_smart self;
     changed_smart := changed_smart self;
     changed_standard := changed_standard self;
     result := result self;
     _resources1_map := _resources1_map self;
     _resources1_map_retired := _resources1_map_retired self;
     _resources2_map := _resources2_map self;
     _resources2_map_retired := _resources2_map_retired self;
     _resources1_set := _resources1_set self;
     _resources1_set_retired := _resources1_set_retired self;
     _resources2_set := v;
     _resources2_set_retired := _resources2_set_retired self;
     _retired := _retired self |}.

Definition set_resources2_set_retired (v : option (gset key)) (self : t) : t :=
  {| resources1 := resources1 self;
     resources2 := resources2 self;
     identity := identity self;
     verbosity := verbosity self;
     same := same self;
     same_smart := same_smart self;
     changed_smart := changed_smart self;
     changed_standard := changed_standard self;
     result := result self;
     _resources1_map := _resources1_map self;
     _resources1_map_retired := _resources1_map_retired self;
     _resources2_map := _resources2_map self;
     _resources2_map_retired := _resources2_map_retired self;
     _resources1_set := _resources1_set self;
     _resources1_set_retired := _resources1_set_retired self;
     _resources2_set := _resources2_set self;
     _resources2_set_retired := v;
     _retired := _retired self |}.

Definition set_retired (v : option resource_map) (self : t) : t :=
  {| resources1 := resources1 self;
     resources2 := resources2 self;
     identity := identity self;
     verbosity := verbosity self;
     same := same self;
     same_smart := same_smart self;
     changed_smart := changed_smart self;
     changed_standard := changed_standard self;
     result := result self;
     _resources1_map := _resources1_map self;
     _resources1_map_retired := _resources1_map_retired self;
     _resources2_map := _resources2_map self;
     _resources2_map_retired := _resources2_map_retired self;
     _resources1_set := _resources1_set self;
     _resources1_set_retired := _resources1_set_retired self;
     _resources2_set := _resources2_set self;
     _resources2_set_retired := _resources2_set_retired self;
     _retired := v |}.

Definition __init__ (resources1 resources2 : list resource)
    (identity : string) (verbosity : Z) : t :=
  {| resources1 := resources1; resources2 := resources2;
     identity := identity; verbosity := verbosity;
     same := ∅; same_smart := ∅; changed_smart := ∅; changed_standard := ∅;
     result := [];
     _resources1_map := None; _resources1_map_retired := None;
     _resources2_map := None; _resources2_map_retired := None;
     _resources1_set := None; _resources1_set_retired := None;
     _resources2_set := None; _resources2_set_retired := None;
     _retired := None |}.

(** [resources.filter(retired=flag)] *)
Definition filter_retired (flag : bool) (resources : list resource)
    : list resource :=
  List.filter (fun r => Bool.eqb (res_retired r) flag) resources.

(** The dict comprehension of [_get_resource_map]: a later resource with
    the same identity key replaces an earlier one. *)
Definition _get_resource_map (identity : string) (resources : list resource)
    : resource_map :=
  fold_left
    (fun m r =>
       <[res_attrs r !! identity :=
           {| info_checksums := res_checksums r; info_id := res_id r |}]> m)
    resources ∅.

(** [get_resources_map]: the pair of the ['active'] and the ['retired']
    entry. *)
Definition get_resources_map (identity : string) (resources : list resource)
    : resource_map * resource_map :=
  (_get_resource_map identity (filter_retired false resources),
   _get_resource_map identity (filter_retired false resources)).

Definition resources1_map : method t resource_map :=
  let! memo := read _resources1_map in
  match memo with
  | Some m => ret m
  | None =>
      let! self := read id in
      let resources_map := get_resources_map (identity self) (resources1 self) in
      update (set_resources1_maps (Some resources_map.1) (Some resources_map.2)) ;;
      ret resources_map.1
  end.

Definition resources1_map_retired : method t resource_map :=
  let! memo := read _resources1_map_retired in
  match memo with
  | Some m => ret m
  | None =>
      let! self := read id in
      let resources_map := get_resources_map (identity self) (resources1 self) in
      update (set_resources1_maps (Some resources_map.1) (Some resources_map.2)) ;;
      ret resources_map.2
  end.

Definition resources2_map : method t resource_map :=
  let! memo := read _resources2_map in
  match memo with
  | Some m => ret m
  | None =>
      let! self := read id in
      let resources_map := get_resources_map (identity self) (resources2 self) in
      update (set_resources2_maps (Some resources_map.1) (Some resources_map.2)) ;;
      ret resources_map.1
  end.

Definition resources2_map_retired : method t resource_map :=
  let! memo := read _resources2_map_retired in
  match memo with
  | Some m => ret m
  | None =>
      let! self := read id in
      let resources_map := get_resources_map (identity self) (resources2 self) in
      update (set_resources2_maps (Some resources_map.1) (Some resources_map.2)) ;;
      ret resources_map.2
  end.

Definition resources1_set : method t (gset key) :=
  let! memo := read _resources1_set in
  match memo with
  | Some s => ret s
  | None =>
      let! m := resources1_map in
      update (set_resources1_set (Some (dom m))) ;;
      ret (dom m)
  end.

Definition resources1_set_retired : method t (gset key) :=
  let! memo := read _resources1_set_retired in
  match memo with
  | Some s => ret s
  | None =>
      let! m := resources1_map_retired in
      update (set_resources1_set_retired (Some (dom m))) ;;
      ret (dom m)
  end.

Definition resources2_set : method t (gset key) :=
  let! memo := read _resources2_set in
  match memo with
  | Some s => ret s
  | None =>
      let! m := resources2_map in
      update (set_resources2_set (Some (dom m))) ;;
      ret (dom m)
  end.

Definition resources2_set_retired : method t (gset key) :=
  let! memo := read _resources2_set_retired in
  match memo with
  | Some s => ret s
  | None =>
      let! m := resources2_map_retired in
      update (set_resources2_set_retired (Some (dom m))) ;;
      ret (dom m)
  end.

(** [{key: value(key) for key in keys if cond(key)}]; the value is a
    subscript of a map and raises [KeyError] on a missing key. *)
Fixpoint comprehension (keys : list key) (cond : key → method t bool)
    (value : key → method t resource_map) : method t resource_map :=
  match keys with
  | [] => ret ∅
  | k :: keys' =>
      let! keep := cond k in
      if keep then
        let! m := value k in
        let! v := try (m !! k) in
        let! rest := comprehension keys' cond value in
        ret (<[k := v]> rest)
      else comprehension keys' cond value
  end.

Definition new : method t resource_map :=
  let! s1 := resources1_set in
  let! s2 := resources2_set in
  comprehension (elements (s1 ∖ s2)) (fun _ => ret true) (fun _ => resources1_map).

Definition retired : method t resource_map :=
  let! memo := read _retired in
  match memo with
  | Some m => ret m
  | None =>
      let! s2 := resources2_set_retired in
      let! s1 := resources1_set_retired in
      let! m := comprehension (elements (s2 ∖ s1)) (fun _ => ret true)
                  (fun _ => resources2_map_retired) in
      update (set_retired (Some m)) ;;
      ret m
  end.

Definition deleted : method t resource_map :=
  let! s2 := resources2_set in
  let! s1 := resources1_set in
  let diff_set := s2 ∖ s1 in
  comprehension (elements diff_set)
    (fun k => let! r := retired in ret (bool_decide (k ∉ dom r)))
    (fun _ => resources2_map).

Definition common : method t resource_map :=
  let! s1 := resources1_set in
  let! s2 := resources2_set in
  comprehension (elements (s1 ∩ s2)) (fun _ => ret true) (fun _ => resources1_map).

Definition is_verbose (self : t) : bool := 1 <=? verbosity self.

Definition is_very_verbose (self : t) : bool := verbosity self =? 2.

Definition include_same (self : t) : bool := is_verbose self.

(** [checksums[name]] on the checksums of a snapshot entry. *)
Definition checksum_of (i : info) (name : string) : option (option string) :=
  c ← info_checksums i; c !! name.

Definition populate_diff_from_common : method t unit :=
  let! common := common in
  let! resources1_map := resources1_map in
  let! resources2_map := resources2_map in
  for_each (map_to_list common) (fun '(key, info) =>
    let! entry1 := try (resources1_map !! key) in
    let! entry2 := try (resources2_map !! key) in
    let! standard1 := try (checksum_of entry1 "standard") in
    let! standard2 := try (checksum_of entry2 "standard") in
    (if bool_decide (standard1 ≠ standard2) then
       update (fun self => set_changed_standard (<[key := info]> (changed_standard self)) self)
     else
       let! inc := read include_same in
       if inc then update (fun self => set_same (<[key := info]> (same self)) self)
       else ret tt) ;;
    let! smart1 := try (checksum_of entry1 "smart") in
    let! smart2 := try (checksum_of entry2 "smart") in
    if bool_decide (smart1 ≠ smart2) then
      update (fun self => set_changed_smart (<[key := info]> (changed_smart self)) self)
    else
      let! inc := read include_same in
      if inc then update (fun self => set_same_smart (<[key := info]> (same_smart self)) self)
      else ret tt).

Definition get_struct (self : t) (values : resource_map) : struct :=
  let total := size values in
  if is_very_verbose self then
    if bool_decide (values ≠ ∅)
    then Listing total (identity self) (dom values)
    else Count total
  else Count total.

Definition prepare : method t unit :=
  let! new := new in
  let! self := read id in
  let s_new := get_struct self new in
  let! deleted := deleted in
  let! self := read id in
  let s_removed := get_struct self deleted in
  let! retired := retired in
  let! self := read id in
  update (set_result
    [("new", s_new); ("removed", s_removed);
     ("retired", get_struct self retired);
     ("changed", get_struct self (changed_standard self));
     ("smart_changed", get_struct self (changed_smart self))]) ;;
  let! self := read id in
  if include_same self then
    update (fun self =>
      set_result (dict_set "same" (get_struct self (same self)) (result self)) self) ;;
    update (fun self =>
      set_result (dict_set "smart_same" (get_struct self (same_smart self)) (result self)) self)
  else ret tt.

Definition process (refresh : bool) : method t (list (string * struct)) :=
  (if refresh then update (set_result []) else ret tt) ;;
  let! cached := read result in
  match cached with
  | _ :: _ => read result
  | [] =>
      populate_diff_from_common ;;
      prepare ;;
      read result
  end.

End ChecksumDiff.

(** ** A generic sort

    Modelled from the spec: [generic_sort] of core.common.utils, which is
    not among the sources.  The spec asks for a sort by "a generic total
    order over mixed types" and leaves the order to the implementer, "e.g.,
    order by type-tag first, then by value".  This instance does that:
    values of different types are ordered by their type, booleans, integers,
    strings and UUIDs of one type by their value, and lists and
    dictionaries among themselves keep their input order.  The theorems
    below hold for every [generic_sort] that meets their hypotheses; this
    one shows that the hypotheses can be met. *)
Module GenericSort.

Definition type_tag (v : value) : Z :=
  match v with
  | VNone => 0
  | VBool _ => 1
  | VInt _ => 2
  | VStr _ => 3
  | VUUID _ => 4
  | VList _ => 5
  | VDict _ => 6
  end.

Definition str_leb (a b : string) : bool :=
  match String_as_OT.compare a b with
  | Gt => false
  | _ => true
  end.

Definition leb (x y : value) : bool :=
  match x, y with
  | VBool a, VBool b => implb a b
  | VInt a, VInt b => a <=? b
  | VStr a, VStr b => str_leb a b
  | VUUID a, VUUID b => str_leb a b
  | _, _ => type_tag x <=? type_tag y
  end.

Definition le (x y : value) : Prop := Is_true (leb x y).

#[global] Instance le_dec : RelDecision le.
Proof. intros x y. unfold le. apply _. Defined.

Definition generic_sort (l : list value) : option (list value) :=
  Some (merge_sort le l).

End GenericSort.

(** ** Vocabulary of the properties *)

(** A [generic_sort] sorts keys canonically when two lists of distinct
    strings with the same elements come out in the same order. *)
Definition sorts_keys_canonically
    (generic_sort : list value → option (list value)) : Prop :=
  ∀ l1 l2 : list string,
    NoDup l1 → l1 ≡ₚ l2 →
    generic_sort (VStr <$> l1) = generic_sort (VStr <$> l2).

(** Two values with the same content: they are equal but for the order
    in which the pairs of the mappings inside them, at any depth, were
    inserted.  A mapping has pairwise distinct keys. *)
Inductive same_content : value → value → Prop :=
  | same_atom v :
      is_list v = false → is_dict v = false → same_content v v
  | same_list l1 l2 :
      Forall2 same_content l1 l2 → same_content (VList l1) (VList l2)
  | same_dict d1 d2 d2' :
      NoDup (dict_keys d1) →
      d2 ≡ₚ d2' →
      Forall2 (fun item1 item2 =>
                 item1.1 = item2.1 ∧ same_content item1.2 item2.2) d1 d2' →
      same_content (VDict d1) (VDict d2).

(** A [generic_sort] treats values of the same content alike: on two
    lists that hold, place by place, values of the same content it raises
    on both or returns two such lists. *)
Definition sort_respects_content
    (generic_sort : list value → option (list value)) : Prop :=
  ∀ l1 l2,
    Forall2 same_content l1 l2 →
    option_Forall2 (Forall2 same_content) (generic_sort l1) (generic_sort l2).

(** A [generic_sort] sorts totally when it never raises and returns a
    permutation of its input. *)
Definition sorts_totally (generic_sort : list value → option (list value)) : Prop :=
  ∀ l, ∃ l', generic_sort l = Some l' ∧ l' ≡ₚ l.

(** The nesting depth of a value. *)
Fixpoint value_depth (v : value) : nat :=
  match v with
  | VList l => S (foldr (fun x n => Nat.max (value_depth x) n) O l)
  | VDict d => S (foldr (fun item n => Nat.max (value_depth item.2) n) O d)
  | _ => O
  end.

(** [value] without its keys that start with a double underscore. *)
Definition without_dunder_keys (value : dict) : dict :=
  List.filter (fun item => negb (startswith_dunder item.1)) value.

(** What an iteration of the loop of [_cleanup] stores under [key], or
    [None] when it skips the item. *)
Definition cleaned_value (key : string) (val : value) : option value :=
  match val with
  | VNone => None
  | _ =>
      if String.eqb key "retired" && negb (truthy val) then None
      else if String.eqb key "is_active" && truthy val then None
      else if String.eqb key "extras" then
        if negb (truthy val) then None
        else
          match val with
          | VDict extras => Some (VDict (without_dunder_keys extras))
          | _ => Some val
          end
      else Some val
  end.


(** The items that the loop of [_cleanup] stores, in order. *)
Definition cleaned_items (fields : dict) : dict :=
  omap (fun item => pair item.1 <$> cleaned_value item.1 item.2) fields.

(** The fields that are as good as absent: a null value, a field
    [retired] with value false, a field [is_active] with value true. *)
Definition default_like (key : string) (val : value) : bool :=
  match val with
  | VNone => true
  | VBool false => String.eqb key "retired"
  | VBool true => String.eqb key "is_active"
  | _ => false
  end.

(** The value of a field without the double-underscore keys inside the
    value of [extras]. *)
Definition without_private (key : string) (val : value) : value :=
  if String.eqb key "extras" then
    match val with
    | VDict extras => VDict (without_dunder_keys extras)
    | _ => val
    end
  else val.

(** What is left of a field mapping without its default-like fields and
    the double-underscore keys of [extras]. *)
Definition essential (fields : dict) : dict :=
  (fun item => (item.1, without_private item.1 item.2)) <$>
    List.filter (fun item => negb (default_like item.1 item.2)) fields.

(** Two field mappings differ only in default-like fields and in
    double-underscore keys of [extras] when what is left of them holds the
    same fields, in any order. *)
Definition differ_only_in_defaults (fields1 fields2 : dict) : Prop :=
  essential fields1 ≡ₚ essential fields2.

(** The [extras] mapping of [fields], when it has keys at all, has one
    that does not start with a double underscore. *)
Definition extras_keep_a_key (fields : dict) : bool :=
  match dict_get "extras" fields with
  | Some (VDict (item :: extras)) =>
      existsb (fun k => negb (startswith_dunder k)) (dict_keys (item :: extras))
  | _ => true
  end.

(** An item is treated alike before and after the default-like parts
    are left out. *)
Definition item_ok (item : string * value) : Prop :=
  cleaned_value item.1 item.2 =
    if default_like item.1 item.2 then None
    else cleaned_value item.1 (without_private item.1 item.2).

(** The snapshot maps as the specification words them: the ['active'] map
    over the non-retired resources, the ['retired'] map over the resources
    with [retired == true]. *)
Definition get_resources_map_as_specified (identity : string)
    (resources : list resource) : resource_map * resource_map :=
(ChecksumDiff._get_resource_map identity (ChecksumDiff.filter_retired false resources),
 ChecksumDiff._get_resource_map identity (ChecksumDiff.filter_retired true resources)).

(** A concept with the given mnemonic and standard checksum. *)
Definition concept (id : Z) (mnemonic standard : string) (retired : bool) : resource :=
{| res_id := id;
   res_attrs := {["mnemonic" := mnemonic]};
   res_retired := retired;
   res_checksums := Some {["standard" := Some standard; "smart" := Some standard]} |}.

(** Scenario A of the specification: side 1 holds [a] and [b], side 2 holds
    [a] and [c], all of them active, listing the keys of each category. *)
Definition scenario_A : ChecksumDiff.t :=
ChecksumDiff.__init__
  [concept 1 "a" "h1" false; concept 2 "b" "h2" false]
  [concept 3 "a" "h1" false; concept 4 "c" "h3" false]
  "mnemonic" 2.

(** The snapshot map of the non-retired resources of a collection. *)
Definition active_map (identity : string) (resources : list resource) : resource_map :=
ChecksumDiff._get_resource_map identity (ChecksumDiff.filter_retired false resources).

(** The differ once the four snapshot maps and the two key sets of the
    active maps are memoized. *)
Definition loaded (r1 r2 : list resource) (idn : string) (v : Z) : ChecksumDiff.t :=
{| ChecksumDiff.resources1 := r1; ChecksumDiff.resources2 := r2;
   ChecksumDiff.identity := idn; ChecksumDiff.verbosity := v;
   ChecksumDiff.same := ∅; ChecksumDiff.same_smart := ∅;
   ChecksumDiff.changed_smart := ∅; ChecksumDiff.changed_standard := ∅;
   ChecksumDiff.result := [];
   ChecksumDiff._resources1_map := Some (active_map idn r1);
   ChecksumDiff._resources1_map_retired := Some (ChecksumDiff.get_resources_map idn r1).2;
   ChecksumDiff._resources2_map := Some (active_map idn r2);
   ChecksumDiff._resources2_map_retired := Some (ChecksumDiff.get_resources_map idn r2).2;
   ChecksumDiff._resources1_set := Some (dom (active_map idn r1));
   ChecksumDiff._resources1_set_retired := None;
   ChecksumDiff._resources2_set := Some (dom (active_map idn r2));
   ChecksumDiff._resources2_set_retired := None;
   ChecksumDiff._retired := None |}.

(** The same once the [retired] property has been read. *)
Definition settled (retired : resource_map) (self : ChecksumDiff.t) : ChecksumDiff.t :=
ChecksumDiff.set_retired (Some retired)
  (ChecksumDiff.set_resources1_set_retired
     (ChecksumDiff._resources1_map_retired self ≫= Some ∘ dom)
     (ChecksumDiff.set_resources2_set_retired
        (ChecksumDiff._resources2_map_retired self ≫= Some ∘ dom) self)).

(** What a call of [process] that finds no cached result does. *)
Definition recompute : method ChecksumDiff.t (list (string * struct)) :=
ChecksumDiff.populate_diff_from_common ;; ChecksumDiff.prepare ;; read ChecksumDiff.result.

(** ** Vocabulary of the further properties *)

(** One call of [_serialize] with the nested calls passed as [ser]. *)
Definition serialize_step (generic_sort : list value → option (list value))
    (ser : value → option string) (obj : value) : option string :=
  let obj := match obj with VList [x] => x | _ => obj end in
  match obj with
  | VList l =>
      sorted ← generic_sort l;
      parts ← mapM ser sorted;
      Some ("[" +:+ join "," parts +:+ "]")
  | VDict d =>
      keys ← generic_sort (VStr <$> dict_keys d);
      dumped ← Json.dumps (VList keys);
      acc ← serialize_items ser d keys ("{" +:+ dumped);
      Some (acc +:+ "}")
  | VUUID s => Json.dumps (VStr s)
  | _ => Json.dumps obj
  end.

(** The printable ASCII characters, from the space to the tilde. *)
Definition printable (c : ascii) : bool :=
  (32 <=? Json.code c) && (Json.code c <=? 126).

Fixpoint all_printable (s : string) : bool :=
  match s with
  | EmptyString => true
  | String c s' => printable c && all_printable s'
  end.

(** The lowercase hexadecimal digits. *)
Definition hex_char (c : ascii) : bool :=
  ((48 <=? Json.code c) && (Json.code c <=? 57))
  || ((97 <=? Json.code c) && (Json.code c <=? 102)).

Fixpoint all_hex (s : string) : bool :=
  match s with
  | EmptyString => true
  | String c s' => hex_char c && all_hex s'
  end.

(** A [generic_sort] that orders two lists of the same strings alike. *)
Definition sorts_strings_canonically
    (generic_sort : list value → option (list value)) : Prop :=
  ∀ l1 l2 : list string,
    l1 ≡ₚ l2 → generic_sort (VStr <$> l1) = generic_sort (VStr <$> l2).

(** What the loop of [_cleanup] never stores: a null value, a falsy
    [retired], a truthy [is_active], an [extras] mapping with a key that
    starts with a double underscore. *)
Definition clean_item (item : string * value) : Prop :=
  item.2 ≠ VNone ∧
  (item.1 = "retired" → truthy item.2 = true) ∧
  (item.1 = "is_active" → truthy item.2 = false) ∧
  (item.1 = "extras" →
   ∀ extras, item.2 = VDict extras →
     existsb startswith_dunder (dict_keys extras) = false).

(** The identity key of a resource, pydash [get(resource, identity)], and
    the entry of a snapshot map built from it. *)
Definition identity_of (identity : string) (r : resource) : key :=
  res_attrs r !! identity.

Definition info_of (r : resource) : info :=
  {| info_checksums := res_checksums r; info_id := res_id r |}.

(** Two states of a differ with the same inputs, the same populated
    categories and the same result: they differ in memoized values only. *)
Definition same_but_memo (self self' : ChecksumDiff.t) : Prop :=
  ChecksumDiff.resources1 self' = ChecksumDiff.resources1 self ∧
  ChecksumDiff.resources2 self' = ChecksumDiff.resources2 self ∧
  ChecksumDiff.identity self' = ChecksumDiff.identity self ∧
  ChecksumDiff.verbosity self' = ChecksumDiff.verbosity self ∧
  ChecksumDiff.same self' = ChecksumDiff.same self ∧
  ChecksumDiff.same_smart self' = ChecksumDiff.same_smart self ∧
  ChecksumDiff.changed_smart self' = ChecksumDiff.changed_smart self ∧
  ChecksumDiff.changed_standard self' = ChecksumDiff.changed_standard self ∧
  ChecksumDiff.result self' = ChecksumDiff.result self.

(** A method of the differ that writes memoized values only. *)
Definition only_memoizes {A} (m : method ChecksumDiff.t A) : Prop :=
  ∀ self a self', m self = Some (a, self') → same_but_memo self self'.

(** The comparison that [populate_diff_from_common] makes for an
    identity key and its side-1 entry: [Some true] when the checksums
    called [name] of the two sides differ, [Some false] when they are
    equal, [None] when side 2 lacks the key or a side lacks the checksum. *)
Definition checksum_changed (name : string) (resources2_map : resource_map)
    (item : key * info) : option bool :=
  entry2 ← resources2_map !! item.1;
  checksum1 ← ChecksumDiff.checksum_of item.2 name;
  checksum2 ← ChecksumDiff.checksum_of entry2 name;
  Some (bool_decide (checksum1 ≠ checksum2)).

(** The body of the loop of [populate_diff_from_common]. *)
Definition populate_item (resources1_map resources2_map : resource_map)
    : key * info → method ChecksumDiff.t unit :=
  fun '(key, info) =>
    let! entry1 := try (resources1_map !! key) in
    let! entry2 := try (resources2_map !! key) in
    let! standard1 := try (ChecksumDiff.checksum_of entry1 "standard") in
    let! standard2 := try (ChecksumDiff.checksum_of entry2 "standard") in
    (if bool_decide (standard1 ≠ standard2) then
       update (fun self =>
         ChecksumDiff.set_changed_standard
           (<[key := info]> (ChecksumDiff.changed_standard self)) self)
     else
       let! inc := read ChecksumDiff.include_same in
       if inc then
         update (fun self =>
           ChecksumDiff.set_same (<[key := info]> (ChecksumDiff.same self)) self)
       else ret tt) ;;
    let! smart1 := try (ChecksumDiff.checksum_of entry1 "smart") in
    let! smart2 := try (ChecksumDiff.checksum_of entry2 "smart") in
    if bool_decide (smart1 ≠ smart2) then
      update (fun self =>
        ChecksumDiff.set_changed_smart
          (<[key := info]> (ChecksumDiff.changed_smart self)) self)
    else
      let! inc := read ChecksumDiff.include_same in
      if inc then
        update (fun self =>
          ChecksumDiff.set_same_smart
            (<[key := info]> (ChecksumDiff.same_smart self)) self)
      else ret tt.

(** The same comparison for an identity key, with the side-1 entry
    looked up as the loop does. *)
Definition compared (name : string) (resources1_map resources2_map : resource_map)
    (key : key) : option bool :=
  entry1 ← resources1_map !! key;
  checksum_changed name resources2_map (key, entry1).

(** The state after one round of the loop for an item with both
    comparisons defined. *)
Definition sort_item (resources1_map resources2_map : resource_map)
    (item : key * info) (self : ChecksumDiff.t) : ChecksumDiff.t :=
  let self1 :=
    match compared "standard" resources1_map resources2_map item.1 with
    | Some true =>
        ChecksumDiff.set_changed_standard
          (<[item.1 := item.2]> (ChecksumDiff.changed_standard self)) self
    | Some false =>
        if ChecksumDiff.include_same self
        then ChecksumDiff.set_same (<[item.1 := item.2]> (ChecksumDiff.same self)) self
        else self
    | None => self
    end in
  match compared "smart" resources1_map resources2_map item.1 with
  | Some true =>
      ChecksumDiff.set_changed_smart
        (<[item.1 := item.2]> (ChecksumDiff.changed_smart self1)) self1
  | Some false =>
      if ChecksumDiff.include_same self1
      then ChecksumDiff.set_same_smart
             (<[item.1 := item.2]> (ChecksumDiff.same_smart self1)) self1
      else self1
  | None => self1
  end.







(** * Properties *)

(** ** Dictionaries *)

Section dict_lemmas.
Context {V : Type}.
Implicit Types (d : list (string * V)) (k : string) (v : V).

Lemma dict_get_None d k : dict_get k d = None ↔ k ∉ dict_keys d.
Proof.
  induction d as [|[k' v'] d IH]; simpl.
  - split; [intros _; apply not_elem_of_nil | done].
  - destruct (String.eqb_spec k k') as [->|Hne].
    + split; [done | intros []; left].
    + rewrite IH, not_elem_of_cons. tauto.
Qed.

Lemma dict_get_elem_of d k v : dict_get k d = Some v → (k, v) ∈ d.
Proof.
  induction d as [|[k' v'] d IH]; simpl; [done|].
  destruct (String.eqb_spec k k') as [->|Hne].
  - intros [= ->]. left.
  - intros H. right. by apply IH.
Qed.

Lemma dict_get_Some d k v :
  NoDup (dict_keys d) → dict_get k d = Some v ↔ (k, v) ∈ d.
Proof.
  induction d as [|[k' v'] d IH]; simpl; intros Hnd.
  - split; [done | intros H; inv H].
  - apply NoDup_cons in Hnd as [Hk' Hnd].
    destruct (String.eqb_spec k k') as [->|Hne].
    + split.
      * intros [= ->]. left.
      * intros [[= ->]|Hin]%elem_of_cons; [done|].
        destruct Hk'. apply (list_elem_of_fmap_2 fst) in Hin. done.
    + rewrite IH by done. rewrite elem_of_cons. split; [tauto|].
      intros [[= ? ?]|?]; [done|done].
Qed.

(** Subscripting does not depend on the insertion order. *)
Lemma dict_get_Permutation d1 d2 k :
  NoDup (dict_keys d1) → d1 ≡ₚ d2 → dict_get k d1 = dict_get k d2.
Proof.
  intros Hnd Hp.
  assert (NoDup (dict_keys d2)) as Hnd2.
  { unfold dict_keys in *. by rewrite <- Hp. }
  destruct (dict_get k d1) as [v|] eqn:E.
  - symmetry. apply dict_get_Some; [done|]. rewrite <- Hp.
    by apply dict_get_Some.
  - symmetry. apply dict_get_None. apply dict_get_None in E.
    unfold dict_keys in *. by rewrite <- Hp.
Qed.

Lemma dict_set_fresh d k v :
  k ∉ dict_keys d → dict_set k v d = d ++ [(k, v)].
Proof.
  induction d as [|[k' v'] d IH]; simpl; [done|].
  intros [Hne Hk]%not_elem_of_cons.
  destruct (String.eqb_spec k k'); [done|]. by rewrite IH.
Qed.

End dict_lemmas.

(** ** The modelled generic sort meets the hypotheses used below *)

Module GenericSortFacts.
Import GenericSort.

Lemma str_leb_spec a b : str_leb a b = true ↔ a = b ∨ String_as_OT.lt a b.
Proof.
  unfold str_leb.
  destruct (String_as_OT.compare_spec a b) as [->|Hlt|Hgt].
  - split; [by left | done].
  - split; [by right | done].
  - split; [done|]. intros [->|Hlt].
    + by apply (irreflexivity String_as_OT.lt) in Hgt.
    + destruct (irreflexivity String_as_OT.lt a). by transitivity b.
Qed.

Lemma str_leb_trans a b c :
  str_leb a b = true → str_leb b c = true → str_leb a c = true.
Proof.
  rewrite !str_leb_spec. intros [->|H1] [->|H2]; auto.
  right. by transitivity b.
Qed.

Lemma str_leb_antisym a b : str_leb a b = true → str_leb b a = true → a = b.
Proof.
  rewrite 2!str_leb_spec. intros [H1|H1] [H2|H2]; auto.
  destruct (irreflexivity String_as_OT.lt a). by transitivity b.
Qed.

Lemma str_leb_total a b : str_leb a b = true ∨ str_leb b a = true.
Proof.
  rewrite !str_leb_spec.
  destruct (String_as_OT.compare_spec a b); auto.
Qed.

#[global] Instance le_total : Total le.
Proof.
  intros x y. unfold le, leb.
  destruct x as [|[]| | | | |], y as [|[]| | | | |]; simpl;
    rewrite ?Is_true_true; try (by left); try (by right);
    try apply str_leb_total; lia.
Qed.

#[global] Instance le_trans : Transitive le.
Proof.
  intros x y z. unfold le, leb.
  destruct x as [|[]| | | | |], y as [|[]| | | | |], z as [|[]| | | | |];
    simpl; rewrite ?Is_true_true; try done; try lia;
    try apply str_leb_trans.
Qed.

Lemma le_antisym_str a y : le (VStr a) y → le y (VStr a) → y = VStr a.
Proof.
  unfold le, leb. destruct y; simpl; rewrite ?Is_true_true; try lia.
  intros H1 H2. f_equal. by apply str_leb_antisym.
Qed.

(** The sort returns a permutation of its input and never raises. *)
Lemma generic_sort_Permutation l :
  ∃ l', generic_sort l = Some l' ∧ l' ≡ₚ l.
Proof. eexists; split; [done|]. apply merge_sort_Permutation. Qed.

(** Lists of strings with the same elements are sorted alike. *)
Lemma generic_sort_keys (l1 l2 : list string) :
  l1 ≡ₚ l2 → generic_sort (VStr <$> l1) = generic_sort (VStr <$> l2).
Proof.
  intros Hp. unfold generic_sort. f_equal.
  apply (Sorted_unique_strong le).
  - intros x1 x2 Hx1 _ H12 H21.
    rewrite merge_sort_Permutation in Hx1.
    apply list_elem_of_fmap in Hx1 as (a & -> & _).
    symmetry. by apply le_antisym_str.
  - apply Sorted_merge_sort, _.
  - apply Sorted_merge_sort, _.
  - rewrite !merge_sort_Permutation. by rewrite Hp.
Qed.

(** The order does not look inside lists and mappings. *)
Lemma leb_same_content x x' y y' :
  same_content x x' → same_content y y' → leb x y = leb x' y'.
Proof. intros Hx Hy. by inv Hx; inv Hy. Qed.

Section merge_sort_related.
Context {A} (R : relation A) `{!∀ x y, Decision (R x y)} (Q : relation A).
Hypothesis R_respects : ∀ x x' y y', Q x x' → Q y y' → R x y ↔ R x' y'.

Lemma list_merge_related l1 l1' l2 l2' :
  Forall2 Q l1 l1' → Forall2 Q l2 l2' →
  Forall2 Q (list_merge R l1 l2) (list_merge R l1' l2').
Proof.
  intros H1. revert l2 l2'.
  induction H1 as [|x1 x1' l1 l1' Hx1 H1 IH1]; intros l2 l2' H2.
  - by rewrite !list_merge_nil_l.
  - induction H2 as [|x2 x2' l2 l2' Hx2 H2 IH2].
    + rewrite !list_merge_nil_r. by constructor.
    + rewrite !list_merge_cons.
      destruct (decide (R x1 x2)) as [HR|HR];
        destruct (decide (R x1' x2')) as [HR'|HR'].
      * constructor; [done|]. apply IH1. by constructor.
      * destruct HR'. by apply (R_respects x1 x1' x2 x2').
      * destruct HR. by apply (R_respects x1 x1' x2 x2').
      * by constructor.
Qed.

Lemma merge_list_to_stack_related st st' l l' :
  Forall2 (option_Forall2 (Forall2 Q)) st st' → Forall2 Q l l' →
  Forall2 (option_Forall2 (Forall2 Q))
    (merge_list_to_stack R st l) (merge_list_to_stack R st' l').
Proof.
  intros Hst. revert l l'.
  induction Hst as [|o o' st st' Ho Hst IH]; intros l l' Hl; cbn.
  - by repeat constructor.
  - destruct Ho as [m m' Hm|].
    + constructor; [constructor|]. apply IH. by apply list_merge_related.
    + constructor; [by constructor|done].
Qed.

Lemma merge_stack_related st st' :
  Forall2 (option_Forall2 (Forall2 Q)) st st' →
  Forall2 Q (merge_stack R st) (merge_stack R st').
Proof.
  induction 1 as [|o o' st st' Ho Hst IH]; cbn; [constructor|].
  destruct Ho as [m m' Hm|]; [|done]. by apply list_merge_related.
Qed.

Lemma merge_sort_aux_related st st' l l' :
  Forall2 (option_Forall2 (Forall2 Q)) st st' → Forall2 Q l l' →
  Forall2 Q (merge_sort_aux R st l) (merge_sort_aux R st' l').
Proof.
  intros Hst Hl. revert st st' Hst.
  induction Hl as [|x x' l l' Hx Hl IH]; intros st st' Hst; cbn.
  - by apply merge_stack_related.
  - apply IH, merge_list_to_stack_related; [done|]. by repeat constructor.
Qed.

Lemma merge_sort_related l l' :
  Forall2 Q l l' → Forall2 Q (merge_sort R l) (merge_sort R l').
Proof. intros Hl. apply merge_sort_aux_related; [constructor|done]. Qed.

End merge_sort_related.

(** Lists of values of the same content are sorted alike. *)
Lemma generic_sort_respects_content : sort_respects_content generic_sort.
Proof.
  intros l1 l2 Hl. constructor. apply (merge_sort_related le); [|done].
  intros x x' y y' Hx Hy. unfold le. by rewrite (leb_same_content x x' y y').
Qed.

End GenericSortFacts.

(** ** The canonical serializer *)

Lemma serialize_unfold generic_sort depth obj :
  _serialize generic_sort (S depth) obj =
  serialize_step generic_sort (_serialize generic_sort depth) obj.
Proof. reflexivity. Qed.

Section serializer.
Variable generic_sort : list value → option (list value).

Lemma serialize_items_ext ser (d1 d2 : dict) keys acc :
  (∀ key, dict_subscript d1 key = dict_subscript d2 key) →
  serialize_items ser d1 keys acc = serialize_items ser d2 keys acc.
Proof.
  intros Hsub. revert acc.
  induction keys as [|key keys IH]; intros acc; simpl; [done|].
  rewrite Hsub. destruct (dict_subscript d2 key) as [v|]; simpl; [|done].
  destruct (ser v) as [s|]; simpl; [|done]. apply IH.
Qed.

Lemma serialize_dict depth (d : dict) :
  _serialize generic_sort (S depth) (VDict d) =
    keys ← generic_sort (VStr <$> dict_keys d);
    dumped ← Json.dumps (VList keys);
    acc ← serialize_items (_serialize generic_sort depth) d keys ("{" +:+ dumped);
    Some (acc +:+ "}").
Proof. reflexivity. Qed.

(** The serialization of a dictionary is fixed by its sorted keys and by
    what subscripting returns. *)
Lemma serialize_dict_ext depth (d1 d2 : dict) :
  generic_sort (VStr <$> dict_keys d1) = generic_sort (VStr <$> dict_keys d2) →
  (∀ key, dict_subscript d1 key = dict_subscript d2 key) →
  _serialize generic_sort depth (VDict d1) = _serialize generic_sort depth (VDict d2).
Proof.
  intros Hkeys Hsub. destruct depth as [|depth]; [done|].
  rewrite !serialize_dict, Hkeys.
  destruct (generic_sort (VStr <$> dict_keys d2)) as [keys|]; [|done].
  cbn [mbind option_bind].
  destruct (Json.dumps (VList keys)) as [dumped|]; [|done].
  cbn [mbind option_bind].
  by rewrite (serialize_items_ext _ d1 d2 _ _ Hsub).
Qed.

(** Unwrapping happens once, before the type of the object is looked at. *)
Lemma serialize_unwrap depth x :
  is_singleton_list x = false →
  _serialize generic_sort depth (VList [x]) = _serialize generic_sort depth x.
Proof.
  intros Hx. destruct depth as [|depth]; [done|].
  destruct x as [| | | | |[|y [|z l]]|]; try discriminate Hx; reflexivity.
Qed.

End serializer.

Lemma serialize_dict_Permutation generic_sort depth (M1 M2 : dict) :
  sorts_keys_canonically generic_sort →
  NoDup (dict_keys M1) →
  M1 ≡ₚ M2 →
  _serialize generic_sort depth (VDict M1) = _serialize generic_sort depth (VDict M2).
Proof.
  intros Hsort Hnd Hperm. apply serialize_dict_ext.
  - apply Hsort; [done|]. unfold dict_keys. by rewrite Hperm.
  - intros [] ; simpl; try done. by apply dict_get_Permutation.
Qed.

(** C7, as stated, fails when [x] is itself a one-element list:
    [serialize([[1]])] is ["[1]"] and [serialize([1])] is ["1"]. *)
Lemma serialize_singleton_of_singleton :
  _serialize GenericSort.generic_sort 3 (VList [VList [VInt 1]]) ≠
  _serialize GenericSort.generic_sort 3 (VList [VInt 1]).
Proof. vm_compute. discriminate. Qed.

(** C7, amended. Singleton unwrap: for every value [x] that is not itself
    a one-element list, [serialize([x])] equals [serialize(x)]. *)
Theorem serialize_singleton_unwrap generic_sort depth x :
  is_singleton_list x = false →
  _serialize generic_sort depth (VList [x]) = _serialize generic_sort depth x.
Proof. apply serialize_unwrap. Qed.

Lemma serialize_singleton_unwrap_witness :
  _serialize GenericSort.generic_sort 3 (VList [VList [VInt 2; VInt 1]]) =
  _serialize GenericSort.generic_sort 3 (VList [VInt 2; VInt 1]).
Proof. apply serialize_singleton_unwrap. reflexivity. Defined.

(** ** The checksum generator *)

(** C4, as stated, fails for a mapping that cleanup changes:
    [generate_checksum_from_many] hashes the cleaned-up value,
    [Checksum.generate] the value as it is. *)
Lemma generate_from_many_cleans_up :
  generate_checksum_from_many GenericSort.generic_sort 3 (VDict [("a", VNone)]) ≠
  generate GenericSort.generic_sort 3 (VDict [("a", VNone)]).
Proof. vm_compute. discriminate. Qed.

(** C4, amended. Combine law: applied to a value [x] that is not a list,
    or to the one-element list [[x]] of any value [x],
    [generate_checksum_from_many] returns [generate(_cleanup(x))]; applied
    to [[x, y]] it returns [generate] of the list of the two digests
    [generate(_cleanup(x))] and [generate(_cleanup(y))]. *)
Theorem generate_from_many_combine generic_sort recursion_limit x y :
  let generate := generate generic_sort recursion_limit in
  let from_many := generate_checksum_from_many generic_sort recursion_limit in
  (is_list x = false → from_many x = generate (_cleanup x)) ∧
  from_many (VList [x]) = generate (_cleanup x) ∧
  from_many (VList [x; y]) =
    (hx ← generate (_cleanup x);
     hy ← generate (_cleanup y);
     generate (VList [VStr hx; VStr hy])).
Proof.
  intros generate from_many. subst from_many. unfold generate_checksum_from_many.
  fold generate. repeat split.
  - intros Hx. destruct x; try discriminate Hx;
      by destruct (generate _).
  - cbn [mapM]. by destruct (generate (_cleanup x)).
  - cbn [mapM]. destruct (generate (_cleanup x)); [|done].
    cbn [mbind option_bind]. by destruct (generate (_cleanup y)).
Qed.

Lemma generate_from_many_combine_witness :
  generate_checksum_from_many GenericSort.generic_sort 3 (VDict [("a", VNone)]) =
  generate GenericSort.generic_sort 3 (_cleanup (VDict [("a", VNone)])).
Proof.
  exact (proj1 (generate_from_many_combine GenericSort.generic_sort 3
                  (VDict [("a", VNone)]) VNone) eq_refl).
Defined.

(** ** The cleanup policy *)

Section cleanup_lemmas.

Lemma dict_get_pop_ne {V} k k' (d : list (string * V)) :
  k ≠ k' → dict_get k (dict_pop k' d) = dict_get k d.
Proof.
  intros Hne. induction d as [|[k0 v0] d IH]; simpl; [done|].
  destruct (String.eqb_spec k' k0) as [->|Hne'].
  - by destruct (String.eqb_spec k k0).
  - simpl. by rewrite IH.
Qed.

Lemma dict_pop_middle {V} k (v : V) (pre post : list (string * V)) :
  k ∉ dict_keys pre → dict_pop k (pre ++ (k, v) :: post) = pre ++ post.
Proof.
  induction pre as [|[k0 v0] pre IH]; simpl; intros Hk.
  - by rewrite String.eqb_refl.
  - apply not_elem_of_cons in Hk as [Hne Hk].
    destruct (String.eqb_spec k k0); [done|]. by rewrite IH.
Qed.

Lemma pop_dunder_keys_go (pre post : dict) :
  Forall (fun item => startswith_dunder item.1 = false) pre →
  fold_left
    (fun value_copied extra_key =>
       if startswith_dunder extra_key then dict_pop extra_key value_copied
       else value_copied)
    (dict_keys post) (pre ++ post)
  = pre ++ without_dunder_keys post.
Proof.
  revert pre. induction post as [|[k v] post IH]; intros pre Hpre; simpl.
  - done.
  - destruct (startswith_dunder k) eqn:Hk; simpl.
    + rewrite dict_pop_middle; [by apply IH|].
      intros (item & -> & Hin)%list_elem_of_fmap.
      rewrite Forall_forall in Hpre. apply Hpre in Hin. congruence.
    + rewrite (cons_middle (k, v) pre post), (assoc_L (++)).
      rewrite IH; [by rewrite <- (assoc_L (++))|].
      apply Forall_app. split; [done|]. by constructor.
Qed.

(** The copy-and-pop loop removes exactly the double-underscore keys. *)
Lemma pop_dunder_keys_filter (value : dict) :
  pop_dunder_keys value = without_dunder_keys value.
Proof. apply (pop_dunder_keys_go [] value). constructor. Qed.

Lemma without_dunder_keys_id (value : dict) :
  existsb startswith_dunder (dict_keys value) = false →
  without_dunder_keys value = value.
Proof.
  induction value as [|[k v] value IH]; simpl; [done|].
  intros [Hk Hrest]%orb_false_elim. rewrite Hk. simpl. by rewrite IH.
Qed.

Lemma cleanup_item_cleaned result key val :
  cleanup_item result (key, val) =
    match cleaned_value key val with
    | Some val' => dict_set key val' result
    | None => result
    end.
Proof.
  unfold cleanup_item, cleaned_value.
  destruct val as [| | | | | |extras]; try done;
    repeat (case_match; try done).
  - by rewrite pop_dunder_keys_filter.
  - by rewrite without_dunder_keys_id.
Qed.

Lemma dict_keys_cleaned_items fields :
  dict_keys (cleaned_items fields) `sublist_of` dict_keys fields.
Proof.
  induction fields as [|[k v] fields IH]; simpl; [done|].
  unfold cleaned_items in *. simpl.
  destruct (cleaned_value k v); simpl.
  - by apply sublist_skip.
  - by apply sublist_cons.
Qed.

Lemma fold_cleanup_item fields result :
  NoDup (dict_keys fields) →
  (∀ k, k ∈ dict_keys fields → k ∉ dict_keys result) →
  fold_left cleanup_item fields result = result ++ cleaned_items fields.
Proof.
  revert result. induction fields as [|[k v] fields IH]; intros result Hnd Hfresh.
  - simpl. by rewrite app_nil_r.
  - apply NoDup_cons in Hnd as [Hk Hnd].
    change (fold_left cleanup_item ((k, v) :: fields) result)
      with (fold_left cleanup_item fields (cleanup_item result (k, v))).
    rewrite cleanup_item_cleaned. unfold cleaned_items. simpl omap.
    destruct (cleaned_value k v) as [v'|]; simpl.
    + rewrite dict_set_fresh by (apply Hfresh; left).
      rewrite IH; [by rewrite <- (assoc_L (++))|done|].
      intros k0 Hk0. unfold dict_keys. rewrite fmap_app, elem_of_app.
      intros [Hin|Hin].
      * by apply (Hfresh k0); [right|].
      * apply list_elem_of_singleton in Hin. simpl in Hin. by subst.
    + apply IH; [done|]. intros k0 Hk0. apply Hfresh. by right.
Qed.

(** On a dictionary, cleanup decides item by item. *)
Lemma cleanup_dict fields :
  NoDup (dict_keys fields) →
  _cleanup (VDict fields) = VDict (cleaned_items fields).
Proof.
  intros Hnd. simpl. f_equal. rewrite fold_cleanup_item; [done|done|].
  intros k _. apply not_elem_of_nil.
Qed.


End cleanup_lemmas.

(** A non-empty mapping under a field other than [is_active] is kept as a
    mapping, with all its keys or, under [extras], with the keys that do
    not start with a double underscore. *)
Lemma cleaned_value_nested k item (inner : dict) :
  k ≠ "is_active" →
  cleaned_value k (VDict (item :: inner)) =
    Some (VDict (if String.eqb k "extras"
                 then without_dunder_keys (item :: inner) else item :: inner)).
Proof.
  intros Hk. unfold cleaned_value. cbn [truthy negb].
  rewrite andb_false_r.
  destruct (String.eqb_spec k "is_active"); [done|].
  cbn [andb]. by destruct (String.eqb k "extras").
Qed.





Section cleanup_defaults.

Lemma without_dunder_keys_idemp (extras : dict) :
  without_dunder_keys (without_dunder_keys extras) = without_dunder_keys extras.
Proof.
  induction extras as [|[k v] extras IH]; simpl; [done|].
  destruct (startswith_dunder k) eqn:Hk; simpl; [done|].
  rewrite Hk. simpl. by rewrite IH.
Qed.

Lemma without_dunder_keys_nonempty (extras : dict) :
  existsb (fun k => negb (startswith_dunder k)) (dict_keys extras) = true →
  without_dunder_keys extras ≠ [].
Proof.
  induction extras as [|[k v] extras IH]; simpl; [done|].
  destruct (startswith_dunder k); simpl; [done|done].
Qed.

Lemma item_ok_intro k v :
  (k = "extras" → ∀ item extras,
     v = VDict (item :: extras) → without_dunder_keys (item :: extras) ≠ []) →
  item_ok (k, v).
Proof.
  intros Hextras. unfold item_ok, without_private. cbn [fst snd].
  destruct (String.eqb_spec k "extras") as [->|Hne].
  - destruct v as [|[]| | | | |[|item extras]]; try done.
    specialize (Hextras eq_refl item extras eq_refl).
    cbn [default_like]. rewrite cleaned_value_nested by done.
    destruct (without_dunder_keys (item :: extras)) as [|item' extras'] eqn:E;
      [done|].
    rewrite cleaned_value_nested by done. cbn [String.eqb Ascii.eqb Bool.eqb].
    by rewrite <- E, without_dunder_keys_idemp.
  - destruct v as [|[]| | | | |]; try done; cbn [default_like].
    + destruct (String.eqb_spec k "is_active") as [->|]; [done|done].
    + unfold cleaned_value. cbn [truthy negb].
      by destruct (String.eqb k "retired").
Qed.

Lemma cleaned_items_essential fields :
  Forall item_ok fields →
  cleaned_items fields = cleaned_items (essential fields).
Proof.
  unfold cleaned_items, essential.
  induction 1 as [|[k v] fields Hok _ IH]; [done|].
  cbn [omap list_omap List.filter fst snd].
  unfold item_ok in Hok. cbn [fst snd] in Hok. rewrite Hok.
  destruct (default_like k v); cbn [negb]; [done|].
  cbn [fmap list_fmap omap list_omap fst snd]. by rewrite IH.
Qed.

Lemma extras_keep_a_key_ok fields :
  NoDup (dict_keys fields) →
  extras_keep_a_key fields = true →
  Forall item_ok fields.
Proof.
  intros Hnd Hkeep. apply Forall_forall. intros [k v] Hin.
  apply item_ok_intro. intros -> item extras ->.
  apply dict_get_Some in Hin; [|done].
  unfold extras_keep_a_key in Hkeep. rewrite Hin in Hkeep.
  by apply without_dunder_keys_nonempty.
Qed.

End cleanup_defaults.

(** C5, as stated, fails for [extras]: a value holding only
    double-underscore keys is not empty, so it is kept and stripped to an
    empty mapping, while an empty [extras] is dropped. *)
Lemma checksum_sees_private_only_extras :
  differ_only_in_defaults
    [("id", VStr "A"); ("extras", VDict [("__internal", VStr "x")])]
    [("id", VStr "A"); ("extras", VDict [])] ∧
  generate_checksum GenericSort.generic_sort 3
    (VDict [("id", VStr "A"); ("extras", VDict [("__internal", VStr "x")])]) ≠
  generate_checksum GenericSort.generic_sort 3
    (VDict [("id", VStr "A"); ("extras", VDict [])]).
Proof.
  split.
  - unfold differ_only_in_defaults. vm_compute. reflexivity.
  - vm_compute. discriminate.
Qed.

(** C5, amended. Two field mappings that differ only in fields whose
    value is null or absent, a field [retired] with value false, a field
    [is_active] with value true, or double-underscore keys inside the
    value of [extras] have the same checksum, provided the [extras]
    mapping of each, when not empty, has a key that does not start with a
    double underscore. *)
Theorem checksum_ignores_defaults generic_sort recursion_limit
    (fields1 fields2 : dict) :
  sorts_keys_canonically generic_sort →
  NoDup (dict_keys fields1) →
  NoDup (dict_keys fields2) →
  extras_keep_a_key fields1 = true →
  extras_keep_a_key fields2 = true →
  differ_only_in_defaults fields1 fields2 →
  generate_checksum generic_sort recursion_limit (VDict fields1) =
  generate_checksum generic_sort recursion_limit (VDict fields2).
Proof.
  intros Hsort Hnd1 Hnd2 Hk1 Hk2 Hdiff.
  unfold generate_checksum, generate.
  rewrite !cleanup_dict by done.
  assert (NoDup (dict_keys (cleaned_items fields1))) as Hnd.
  { eapply sublist_NoDup; [exact Hnd1|apply dict_keys_cleaned_items]. }
  rewrite (serialize_dict_Permutation generic_sort recursion_limit
             (cleaned_items fields1) (cleaned_items fields2)); [done..|].
  rewrite (cleaned_items_essential fields1), (cleaned_items_essential fields2)
    by by apply extras_keep_a_key_ok.
  unfold cleaned_items. apply omap_Permutation, Hdiff.
Qed.

Lemma checksum_ignores_defaults_witness :
  generate_checksum GenericSort.generic_sort 3
    (VDict [("id", VStr "A"); ("retired", VBool false); ("is_active", VBool true);
            ("x", VNone);
            ("extras", VDict [("__internal", VStr "x"); ("note", VStr "y")])]) =
  generate_checksum GenericSort.generic_sort 3
    (VDict [("extras", VDict [("note", VStr "y")]); ("id", VStr "A")]).
Proof.
  apply checksum_ignores_defaults.
  - intros l1 l2 _. apply GenericSortFacts.generic_sort_keys.
  - apply (bool_decide_unpack _). vm_compute. exact I.
  - apply (bool_decide_unpack _). vm_compute. exact I.
  - reflexivity.
  - reflexivity.
  - unfold differ_only_in_defaults. vm_compute. apply perm_swap.
Defined.

(** ** The serializer returns

    With a [generic_sort] that returns a permutation of its input, the
    serializer raises only when the nesting of the value exceeds the
    recursion limit. *)

Section serializer_returns.
Variable generic_sort : list value → option (list value).
Hypothesis generic_sort_total : sorts_totally generic_sort.

Lemma value_depth_elem x (l : list value) :
  x ∈ l → (value_depth x < value_depth (VList l))%nat.
Proof.
  cbn [value_depth]. induction 1 as [x l|x y l _ IH]; cbn [foldr]; lia.
Qed.

Lemma value_depth_item k v (d : dict) :
  (k, v) ∈ d → (value_depth v < value_depth (VDict d))%nat.
Proof.
  cbn [value_depth].
  induction d as [|[k0 v0] d IH]; intros Hin; [by inv Hin|].
  cbn [foldr snd].
  apply elem_of_cons in Hin as [[= <- <-]|Hin]; [lia|].
  apply IH in Hin. lia.
Qed.

Lemma dumps_keys (keys : list string) :
  is_Some (Json.dumps (VList (VStr <$> keys))).
Proof.
  cbn [Json.dumps].
  match goal with |- is_Some (?items _ ≫= _) => set (go := items) end.
  assert (is_Some (go (VStr <$> keys))) as [parts ->]; [|done].
  induction keys as [|k keys [parts IH]]; [done|].
  cbn. cbn in IH. by rewrite IH.
Qed.

Lemma dumps_Permutation (l1 l2 : list value) :
  l1 ≡ₚ l2 →
  Forall (fun v => is_Some (Json.dumps v)) l1 →
  is_Some (Json.dumps (VList l2)).
Proof.
  intros Hp Hall. rewrite Hp in Hall. clear Hp l1.
  cbn [Json.dumps].
  match goal with |- is_Some (?items _ ≫= _) => set (go := items) end.
  assert (is_Some (go l2)) as [parts ->]; [|done].
  induction Hall as [|x l [p Hp] _ [parts IH]]; [done|].
  cbn. rewrite Hp. cbn. by rewrite IH.
Qed.

Lemma serialize_items_is_Some ser (d : dict) keys acc :
  Forall (fun key => ∃ v, dict_subscript d key = Some v ∧ is_Some (ser v)) keys →
  is_Some (serialize_items ser d keys acc).
Proof.
  intros Hall. revert acc.
  induction Hall as [|key keys (v & Hv & s & Hs) _ IH]; intros acc; [done|].
  cbn [serialize_items]. rewrite Hv. cbn. rewrite Hs. cbn. apply IH.
Qed.

Lemma serialize_list_is_Some depth (l : list value) :
  (∀ x, x ∈ l → is_Some (_serialize generic_sort depth x)) →
  is_Some (sorted ← generic_sort l;
           parts ← mapM (_serialize generic_sort depth) sorted;
           Some ("[" +:+ join "," parts +:+ "]")).
Proof.
  intros Hall. destruct (generic_sort_total l) as (sorted & -> & Hp).
  cbn [mbind option_bind].
  assert (is_Some (mapM (_serialize generic_sort depth) sorted)) as [parts ->];
    [|done].
  apply mapM_is_Some, Forall_forall. intros x Hx. apply Hall. by rewrite <- Hp.
Qed.

Lemma serialize_dict_is_Some depth (d : dict) :
  (∀ k v, (k, v) ∈ d → is_Some (_serialize generic_sort depth v)) →
  is_Some (_serialize generic_sort (S depth) (VDict d)).
Proof.
  intros Hall. rewrite serialize_dict.
  destruct (generic_sort_total (VStr <$> dict_keys d)) as (keys & -> & Hp).
  cbn [mbind option_bind].
  destruct (dumps_Permutation (VStr <$> dict_keys d) keys) as [dumped ->];
    [done| |].
  { apply Forall_fmap, Forall_forall. intros k _. cbn. eauto. }
  cbn [mbind option_bind].
  destruct (serialize_items_is_Some (_serialize generic_sort depth) d keys
              ("{" +:+ dumped)) as [acc ->]; [|done].
  apply Forall_forall. intros key Hkey. rewrite Hp in Hkey.
  apply list_elem_of_fmap in Hkey as (k & -> & Hk).
  apply list_elem_of_fmap in Hk as ([k' v] & -> & Hin). cbn [fst dict_subscript].
  destruct (dict_get k' d) as [v'|] eqn:E.
  - exists v'. split; [done|]. apply (Hall k'). by apply dict_get_elem_of.
  - apply dict_get_None in E. destruct E.
    apply list_elem_of_fmap. by exists (k', v).
Qed.

(** Enough recursion depth gives a serialization. *)
Lemma serialize_is_Some depth v :
  (value_depth v < depth)%nat → is_Some (_serialize generic_sort depth v).
Proof.
  revert v. induction depth as [|depth IH]; intros v Hd; [lia|].
  assert (∀ l : list value, (value_depth (VList l) < S depth)%nat →
          is_Some (sorted ← generic_sort l;
                   parts ← mapM (_serialize generic_sort depth) sorted;
                   Some ("[" +:+ join "," parts +:+ "]"))) as Hlist.
  { intros l Hl. apply serialize_list_is_Some. intros x Hx. apply IH.
    apply value_depth_elem in Hx. lia. }
  assert (∀ d : dict, (value_depth (VDict d) < S depth)%nat →
          is_Some (_serialize generic_sort (S depth) (VDict d))) as Hdict.
  { intros d Hl. apply serialize_dict_is_Some. intros k x Hx. apply IH.
    apply value_depth_item in Hx. lia. }
  destruct v as [|[]| | | |l|d]; try done.
  - destruct l as [|x [|y l]]; [by apply Hlist| |by apply Hlist].
    assert (value_depth x < depth)%nat as Hx.
    { pose proof (value_depth_elem x [x] (list_elem_of_here x [])). lia. }
    destruct x as [|[]| | | |l|d]; try done.
    + apply Hlist. lia.
    + apply Hdict. lia.
  - by apply Hdict.
Qed.

Lemma generate_is_Some recursion_limit v :
  (value_depth v < recursion_limit)%nat →
  is_Some (generate generic_sort recursion_limit v).
Proof.
  intros Hd. unfold generate.
  by destruct (serialize_is_Some recursion_limit v Hd) as [s ->].
Qed.

End serializer_returns.

(** ** The serialization does not depend on insertion order *)

Section serializer_content.
Variable generic_sort : list value → option (list value).
Hypothesis generic_sort_keys : sorts_keys_canonically generic_sort.
Hypothesis generic_sort_content : sort_respects_content generic_sort.

Lemma same_content_unwrap v1 v2 :
  same_content v1 v2 →
  same_content (match v1 with VList [x] => x | _ => v1 end)
               (match v2 with VList [x] => x | _ => v2 end).
Proof.
  intros H. inv H.
  - destruct v2 as [| | | | |l|]; try done; by constructor.
  - match goal with H : Forall2 _ _ _ |- _ => rename H into Hl end.
    destruct Hl as [|x1 x2 l1 l2 Hx Hl]; [by constructor; constructor|].
    destruct Hl as [|y1 y2 l1 l2 Hy Hl]; [done|].
    by constructor; repeat constructor.
  - by econstructor.
Qed.

Lemma serialize_items_related (ser : value → option string) (d1 d2 : dict) keys acc :
  (∀ key, dict_subscript d1 key ≫= ser = dict_subscript d2 key ≫= ser) →
  serialize_items ser d1 keys acc = serialize_items ser d2 keys acc.
Proof.
  intros Hsub. revert acc.
  induction keys as [|key keys IH]; intros acc; cbn [serialize_items]; [done|].
  specialize (Hsub key).
  destruct (dict_subscript d1 key) as [v1|], (dict_subscript d2 key) as [v2|];
    cbn [mbind option_bind] in *.
  - rewrite Hsub. destruct (ser v2); cbn [mbind option_bind]; [apply IH|done].
  - rewrite Hsub. done.
  - rewrite <- Hsub. done.
  - done.
Qed.

Lemma dict_get_related (ser : value → option string) (d1 d2 : dict) k :
  (∀ v1 v2, same_content v1 v2 → ser v1 = ser v2) →
  Forall2 (fun item1 item2 : string * value =>
             item1.1 = item2.1 ∧ same_content item1.2 item2.2) d1 d2 →
  dict_get k d1 ≫= ser = dict_get k d2 ≫= ser.
Proof.
  intros Hser. induction 1 as [|[k1 v1] [k2 v2] d1 d2 [Hk Hv] _ IH]; [done|].
  cbn [fst snd] in Hk, Hv. subst k2. cbn [dict_get].
  destruct (String.eqb k k1); [|done]. cbn [mbind option_bind]. by apply Hser.
Qed.

Lemma mapM_related (ser : value → option string) (l1 l2 : list value) :
  (∀ v1 v2, same_content v1 v2 → ser v1 = ser v2) →
  Forall2 same_content l1 l2 → mapM ser l1 = mapM ser l2.
Proof.
  intros Hser. induction 1 as [|v1 v2 l1 l2 Hv _ IH]; [done|].
  cbn [mapM]. by rewrite (Hser v1 v2 Hv), IH.
Qed.

Lemma serialize_step_same_content (ser : value → option string) v1 v2 :
  (∀ v1 v2, same_content v1 v2 → ser v1 = ser v2) →
  same_content v1 v2 →
  serialize_step generic_sort ser v1 = serialize_step generic_sort ser v2.
Proof.
  intros Hser H. apply same_content_unwrap in H. unfold serialize_step.
  inv H.
  - done.
  - match goal with H : Forall2 _ _ _ |- _ => rename H into Hl end.
    destruct (generic_sort_content _ _ Hl) as [s1 s2 Hs|]; [|done].
    cbn [mbind option_bind]. by rewrite (mapM_related ser s1 s2).
  - match goal with
    | Hnd : NoDup _, Hp : _ ≡ₚ _, Hall : Forall2 _ _ _ |- _ =>
        rename Hnd into Hnd1; rename Hp into Hperm; rename Hall into Hitems
    end.
    assert (dict_keys d1 = dict_keys d2') as Hkeys.
    { unfold dict_keys. clear -Hitems.
      induction Hitems as [|? ? ? ? [Hk _] _ IH]; [done|]. cbn. by rewrite Hk, IH. }
    assert (generic_sort (VStr <$> dict_keys d1) = generic_sort (VStr <$> dict_keys d2))
      as Hsorted.
    { apply generic_sort_keys; [done|]. rewrite Hkeys. unfold dict_keys.
      by rewrite Hperm. }
    rewrite Hsorted.
    destruct (generic_sort (VStr <$> dict_keys d2)) as [keys|]; [|done].
    cbn [mbind option_bind].
    destruct (Json.dumps (VList keys)) as [dumped|]; [|done].
    cbn [mbind option_bind].
    rewrite (serialize_items_related ser d1 d2); [done|].
    intros [| | |k| | |]; cbn [dict_subscript]; try done.
    rewrite (dict_get_related ser d1 d2' k Hser Hitems).
    rewrite (dict_get_Permutation d2' d2 k); [done| |done].
    by rewrite <- Hkeys.
Qed.

(** Values of the same content have the same serialization. *)
Lemma serialize_same_content depth v1 v2 :
  same_content v1 v2 →
  _serialize generic_sort depth v1 = _serialize generic_sort depth v2.
Proof.
  revert v1 v2. induction depth as [|depth IH]; intros v1 v2 H; [done|].
  rewrite !serialize_unfold. by apply serialize_step_same_content.
Qed.

End serializer_content.

(** C3. Order-independence: two mappings that hold the same key/value
    pairs, inserted in any two orders (the pairs of the mappings nested in
    them, at any depth, included), have a serialization, and the same
    one.  This holds within the recursion limit, for every [generic_sort]
    that returns the items it is given, orders two lists of the same
    distinct strings alike and treats values of the same content alike. *)
Theorem serialize_insertion_order_independent generic_sort depth (M1 M2 : dict) :
  sorts_totally generic_sort →
  sorts_keys_canonically generic_sort →
  sort_respects_content generic_sort →
  same_content (VDict M1) (VDict M2) →
  (value_depth (VDict M1) < depth)%nat →
  ∃ s,
    _serialize generic_sort depth (VDict M1) = Some s ∧
    _serialize generic_sort depth (VDict M2) = Some s.
Proof.
  intros Htotal Hkeys Hcontent Hsame Hdepth.
  destruct (serialize_is_Some generic_sort Htotal depth (VDict M1) Hdepth)
    as [s Hs].
  exists s. split; [done|].
  by rewrite <- (serialize_same_content generic_sort Hkeys Hcontent depth
                   (VDict M1) (VDict M2) Hsame).
Qed.

Lemma serialize_insertion_order_independent_witness :
  ∃ s,
    _serialize GenericSort.generic_sort 5
      (VDict [("b", VInt 1);
              ("a", VList [VDict [("x", VList [VInt 2; VInt 1]); ("y", VNone)];
                           VBool true])]) = Some s ∧
    _serialize GenericSort.generic_sort 5
      (VDict [("a", VList [VDict [("y", VNone); ("x", VList [VInt 2; VInt 1])];
                           VBool true]);
              ("b", VInt 1)]) = Some s.
Proof.
  apply serialize_insertion_order_independent.
  - intros l. apply GenericSortFacts.generic_sort_Permutation.
  - intros l1 l2 _. apply GenericSortFacts.generic_sort_keys.
  - apply GenericSortFacts.generic_sort_respects_content.
  - apply (same_dict _ _
             [("b", VInt 1);
              ("a", VList [VDict [("y", VNone); ("x", VList [VInt 2; VInt 1])];
                           VBool true])]).
    + apply (bool_decide_unpack _). vm_compute. exact I.
    + apply perm_swap.
    + constructor; [split; [reflexivity|by apply same_atom]|].
      constructor; [split; [reflexivity|]|constructor].
      apply same_list.
      constructor; [|constructor; [by apply same_atom|constructor]].
      apply (same_dict _ _ [("x", VList [VInt 2; VInt 1]); ("y", VNone)]).
      * apply (bool_decide_unpack _). vm_compute. exact I.
      * apply perm_swap.
      * constructor; [split; [reflexivity|]|].
        -- apply same_list.
           repeat (constructor; [by apply same_atom|]). constructor.
        -- constructor; [split; [reflexivity|by apply same_atom]|].
           constructor.
  - vm_compute. lia.
Defined.

(** ** The checksum cache of a resource *)

Section checksum_cache.
Variable generic_sort : list value → option (list value).
Variable recursion_limit : nat.
Variable STANDARD_CHECKSUM_KEY SMART_CHECKSUM_KEY : string.
Variable get_standard_checksum_fields : ChecksumModel → option value.
Variable get_smart_checksum_fields : ChecksumModel → option value.
Variable TEST_MODE : bool.
Variable calculate_checksums : option checksums_map → option (option checksums_map).

(** C6. With the toggle off, [get_checksums], [set_checksums], the
    [checksum] property and [get_all_checksums] return [None] without
    raising and leave the object, its [checksums] and the stored row as
    they are, whatever the resource type and the arguments. *)
Theorem toggle_off_is_noop (self : ChecksumModel) (queue recalculate : bool) :
  get_checksums generic_sort recursion_limit false
    STANDARD_CHECKSUM_KEY SMART_CHECKSUM_KEY
    get_standard_checksum_fields get_smart_checksum_fields
    TEST_MODE calculate_checksums queue recalculate self = Some (None, self) ∧
  set_checksums generic_sort recursion_limit false
    STANDARD_CHECKSUM_KEY SMART_CHECKSUM_KEY
    get_standard_checksum_fields get_smart_checksum_fields self = Some (tt, self) ∧
  checksum generic_sort recursion_limit false
    STANDARD_CHECKSUM_KEY SMART_CHECKSUM_KEY
    get_standard_checksum_fields get_smart_checksum_fields
    TEST_MODE calculate_checksums self = Some (None, self) ∧
  get_all_checksums generic_sort recursion_limit false
    STANDARD_CHECKSUM_KEY SMART_CHECKSUM_KEY
    get_standard_checksum_fields get_smart_checksum_fields self = Some (None, self).
Proof. done. Qed.

Hypothesis generic_sort_total : sorts_totally generic_sort.

Lemma calculate_standard_checksum_returns self fields :
  get_standard_checksum_fields self = Some fields →
  (value_depth (_cleanup fields) < recursion_limit)%nat →
  ∃ h, _calculate_standard_checksum generic_sort recursion_limit
         get_standard_checksum_fields self = Some (h, self).
Proof.
  intros Hf Hd. unfold _calculate_standard_checksum, bind, try, ret.
  rewrite Hf.
  destruct (generate_is_Some generic_sort generic_sort_total recursion_limit
              (_cleanup fields) Hd) as [h Hh].
  unfold generate_checksum. rewrite Hh. destruct fields; eauto.
Qed.

Lemma calculate_smart_checksum_returns self fields :
  get_smart_checksum_fields self = Some fields →
  (value_depth (_cleanup fields) < recursion_limit)%nat →
  ∃ h, _calculate_smart_checksum generic_sort recursion_limit
         get_smart_checksum_fields self = Some (h, self) ∧
       (truthy fields = false → h = None).
Proof.
  intros Hf Hd. unfold _calculate_smart_checksum, bind, try, ret.
  rewrite Hf.
  destruct (generate_is_Some generic_sort generic_sort_total recursion_limit
              (_cleanup fields) Hd) as [h Hh].
  unfold generate_checksum. rewrite Hh.
  destruct (truthy fields); eexists; (split; [reflexivity|done]).
Qed.

End checksum_cache.

(** C9. With the toggle on and the keys of the base class, for a resource
    whose field mappings are within the recursion limit,
    [get_all_checksums] returns a mapping that has both the ['standard']
    and the ['smart'] key; with an empty mapping of smart fields the
    ['smart'] key is there with value [None].  [set_checksums] stores
    that mapping, after which [has_all_checksums] holds and
    [get_checksums] returns the stored mapping as it is. *)
Theorem all_checksums_have_both_keys generic_sort recursion_limit
    get_standard_checksum_fields get_smart_checksum_fields
    TEST_MODE calculate_checksums (self : ChecksumModel) standard_fields smart_fields :
  sorts_totally generic_sort →
  get_standard_checksum_fields self = Some standard_fields →
  get_smart_checksum_fields self = Some smart_fields →
  (value_depth (_cleanup standard_fields) < recursion_limit)%nat →
  (value_depth (_cleanup smart_fields) < recursion_limit)%nat →
  ∃ m : checksums_map,
    get_all_checksums generic_sort recursion_limit true
      Base.STANDARD_CHECKSUM_KEY Base.SMART_CHECKSUM_KEY
      get_standard_checksum_fields get_smart_checksum_fields self
      = Some (Some m, self) ∧
    is_Some (m !! "standard") ∧
    is_Some (m !! "smart") ∧
    (truthy smart_fields = false → m !! "smart" = Some None) ∧
    ∃ self',
      set_checksums generic_sort recursion_limit true
        Base.STANDARD_CHECKSUM_KEY Base.SMART_CHECKSUM_KEY
        get_standard_checksum_fields get_smart_checksum_fields self
        = Some (tt, self') ∧
      checksums self' = Some m ∧
      has_all_checksums Base.STANDARD_CHECKSUM_KEY Base.SMART_CHECKSUM_KEY self'
        = Some (true, self') ∧
      ∀ queue,
        get_checksums generic_sort recursion_limit true
          Base.STANDARD_CHECKSUM_KEY Base.SMART_CHECKSUM_KEY
          get_standard_checksum_fields get_smart_checksum_fields
          TEST_MODE calculate_checksums queue false self'
          = Some (Some m, self').
Proof.
  intros Hsort Hstd Hsmart Hd1 Hd2.
  destruct (calculate_standard_checksum_returns generic_sort recursion_limit
              get_standard_checksum_fields Hsort self standard_fields Hstd Hd1)
    as [h1 H1].
  destruct (calculate_smart_checksum_returns generic_sort recursion_limit
              get_smart_checksum_fields Hsort self smart_fields Hsmart Hd2)
    as (h2 & H2 & Hnone).
  set (m := <["smart" := h2]> (<["standard" := h1]> (∅ : checksums_map))).
  assert (get_all_checksums generic_sort recursion_limit true
            Base.STANDARD_CHECKSUM_KEY Base.SMART_CHECKSUM_KEY
            get_standard_checksum_fields get_smart_checksum_fields self
          = Some (Some m, self)) as Hall.
  { unfold get_all_checksums. cbn [truthy_str Base.STANDARD_CHECKSUM_KEY
      Base.SMART_CHECKSUM_KEY String.eqb negb].
    unfold bind at 1. unfold bind at 1. rewrite H1. unfold ret at 1.
    unfold bind at 1. unfold bind at 1. rewrite H2. done. }
  assert (m !! "standard" = Some h1) as Hm1.
  { subst m. by rewrite lookup_insert_ne, lookup_insert_eq. }
  assert (m !! "smart" = Some h2) as Hm2.
  { subst m. by rewrite lookup_insert_eq. }
  assert (m ≠ ∅) as Hne.
  { intros Hm. rewrite Hm in Hm2. by rewrite lookup_empty in Hm2. }
  exists m. split; [done|]. split; [by rewrite Hm1|]. split; [by rewrite Hm2|].
  split; [intros Hf; by rewrite Hm2, (Hnone Hf)|].
  set (self' := save_checksums (set_checksums_field (Some m) self)).
  assert (has_all_checksums Base.STANDARD_CHECKSUM_KEY Base.SMART_CHECKSUM_KEY self'
          = Some (true, self')) as Hhas.
  { unfold has_all_checksums, has_standard_checksum, has_smart_checksum.
    unfold Base.STANDARD_CHECKSUM_KEY, Base.SMART_CHECKSUM_KEY.
    cbn [truthy_str String.eqb negb].
    unfold bind, read, try, ret. cbn [checksums self' save_checksums set_checksums_field].
    rewrite Hm1, bool_decide_eq_true_2 by eauto.
    cbn [checksums self' save_checksums set_checksums_field].
    by rewrite Hm2, bool_decide_eq_true_2 by eauto. }
  exists self'. split; [|split; [done|split; [done|]]].
  - unfold set_checksums, _calculate_checksums. unfold bind at 1. by rewrite Hall.
  - intros queue. unfold get_checksums.
    unfold bind at 1. unfold read at 1. unfold bind at 1.
    cbn [checksums self' save_checksums set_checksums_field negb andb truthy_checksums].
    rewrite bool_decide_eq_false_2 by done. cbn [negb]. by rewrite Hhas.
Qed.

Lemma all_checksums_have_both_keys_witness :
  let self := {| attributes := [("id", VStr "A")]; checksums := Some ∅;
                 saved_checksums := None |} in
  let fields := fun self : ChecksumModel => Some (VDict (attributes self)) in
  ∃ m : checksums_map,
    get_all_checksums GenericSort.generic_sort 5 true
      Base.STANDARD_CHECKSUM_KEY Base.SMART_CHECKSUM_KEY
      fields Base.get_smart_checksum_fields self = Some (Some m, self) ∧
    is_Some (m !! "standard") ∧
    is_Some (m !! "smart") ∧
    (truthy (VDict []) = false → m !! "smart" = Some None) ∧
    ∃ self',
      set_checksums GenericSort.generic_sort 5 true
        Base.STANDARD_CHECKSUM_KEY Base.SMART_CHECKSUM_KEY
        fields Base.get_smart_checksum_fields self = Some (tt, self') ∧
      checksums self' = Some m ∧
      has_all_checksums Base.STANDARD_CHECKSUM_KEY Base.SMART_CHECKSUM_KEY self'
        = Some (true, self') ∧
      ∀ queue,
        get_checksums GenericSort.generic_sort 5 true
          Base.STANDARD_CHECKSUM_KEY Base.SMART_CHECKSUM_KEY
          fields Base.get_smart_checksum_fields
          false (fun row => Some row) queue false self'
          = Some (Some m, self').
Proof.
  intros self fields.
  apply (all_checksums_have_both_keys GenericSort.generic_sort 5
           fields Base.get_smart_checksum_fields false (fun row => Some row)
           self (VDict [("id", VStr "A")]) (VDict [])).
  - intros l. apply GenericSortFacts.generic_sort_Permutation.
  - reflexivity.
  - reflexivity.
  - vm_compute. lia.
  - vm_compute. lia.
Defined.

(** ** The resource-set differ *)

Module ChecksumDiffFacts.
Import ChecksumDiff.

(** A comprehension whose condition and value leave the differ as it is. *)
Lemma comprehension_const (keys : list key) (m : resource_map)
    (cond : key → method t bool) (value : key → method t resource_map)
    (P : key → bool) (self : t) :
  (∀ k, k ∈ keys → cond k self = Some (P k, self)) →
  (∀ k, k ∈ keys → value k self = Some (m, self)) →
  (∀ k, k ∈ keys → P k = true → is_Some (m !! k)) →
  ∃ res,
    comprehension keys cond value self = Some (res, self) ∧
    ∀ k, res !! k = if bool_decide (k ∈ keys) && P k then m !! k else None.
Proof.
  induction keys as [|k0 keys IH]; intros Hcond Hvalue Hm.
  - exists ∅. split; [done|]. intros k. by rewrite lookup_empty.
  - destruct IH as (res & Hres & Hlook).
    { intros k Hk. apply Hcond. by right. }
    { intros k Hk. apply Hvalue. by right. }
    { intros k Hk. apply Hm. by right. }
    cbn [comprehension]. unfold bind at 1. rewrite Hcond by left.
    destruct (P k0) eqn:HP.
    + destruct (Hm k0) as [v Hv]; [left|done|].
      exists (<[k0 := v]> res). split.
      * unfold bind at 1. rewrite Hvalue by left.
        unfold bind at 1, try at 1. rewrite Hv.
        unfold bind at 1. by rewrite Hres.
      * intros k. destruct (decide (k = k0)) as [->|Hne].
        -- rewrite lookup_insert_eq, bool_decide_eq_true_2 by left.
           by rewrite HP.
        -- rewrite lookup_insert_ne, Hlook by done.
           rewrite (bool_decide_ext (k ∈ keys) (k ∈ k0 :: keys)); [done|].
           rewrite elem_of_cons. tauto.
    + exists res. split; [done|]. intros k. rewrite Hlook.
      destruct (decide (k = k0)) as [->|Hne].
      * rewrite HP, !andb_false_r. done.
      * rewrite (bool_decide_ext (k ∈ keys) (k ∈ k0 :: keys)); [done|].
        rewrite elem_of_cons. tauto.
Qed.

(** A comprehension whose condition fails for every key builds the empty
    mapping; the first evaluation of the condition may update the
    differ. *)
Lemma comprehension_none (keys : list key)
    (cond : key → method t bool) (value : key → method t resource_map)
    (self self' : t) :
  (∀ k, k ∈ keys → cond k self = Some (false, self')) →
  (∀ k, k ∈ keys → cond k self' = Some (false, self')) →
  comprehension keys cond value self
    = Some (∅, match keys with [] => self | _ => self' end).
Proof.
  intros H1 H2. destruct keys as [|k0 keys]; [done|].
  cbn [comprehension]. unfold bind at 1. rewrite H1 by left.
  assert (comprehension keys cond value self' = Some (∅, self')) as ->; [|done].
  assert (∀ k, k ∈ keys → cond k self' = Some (false, self')) as H.
  { intros k Hk. apply H2. by right. }
  clear H1 H2. induction keys as [|k1 keys IH]; [done|].
  cbn [comprehension]. unfold bind at 1. rewrite H by left.
  apply IH. intros k Hk. apply H. by right.
Qed.

Lemma new_fresh r1 r2 idn v :
  new (__init__ r1 r2 idn v) =
  comprehension (elements (dom (active_map idn r1) ∖ dom (active_map idn r2)))
    (fun _ => ret true) (fun _ => resources1_map) (loaded r1 r2 idn v).
Proof. reflexivity. Qed.

Lemma common_fresh r1 r2 idn v :
  common (__init__ r1 r2 idn v) =
  comprehension (elements (dom (active_map idn r1) ∩ dom (active_map idn r2)))
    (fun _ => ret true) (fun _ => resources1_map) (loaded r1 r2 idn v).
Proof. reflexivity. Qed.

Lemma deleted_fresh r1 r2 idn v :
  deleted (__init__ r1 r2 idn v) =
  comprehension (elements (dom (active_map idn r2) ∖ dom (active_map idn r1)))
    (fun k => let! r := retired in ret (bool_decide (k ∉ dom r)))
    (fun _ => resources2_map) (loaded r1 r2 idn v).
Proof. reflexivity. Qed.

(** The comprehension of [retired], run on a differ whose side-2 retired
    map is memoized. *)
Lemma retired_comprehension (self : t) (m1 m2 : resource_map) :
  _resources2_map_retired self = Some m2 →
  ∃ res,
    comprehension (elements (dom m2 ∖ dom m1)) (fun _ => ret true)
      (fun _ => resources2_map_retired) self = Some (res, self) ∧
    ∀ k, res !! k = if bool_decide (k ∈ dom m2 ∖ dom m1) then m2 !! k else None.
Proof.
  intros Hmemo.
  destruct (comprehension_const (elements (dom m2 ∖ dom m1)) m2
              (fun _ => ret true) (fun _ => resources2_map_retired)
              (fun _ => true) self) as (res & Hres & Hlook).
  - done.
  - intros k _. unfold resources2_map_retired, bind, read. by rewrite Hmemo.
  - intros k Hk _. apply elem_of_elements, elem_of_difference in Hk as [Hk _].
    by apply elem_of_dom.
  - exists res. split; [done|]. intros k. rewrite Hlook, andb_true_r.
    rewrite (bool_decide_ext (k ∈ elements (dom m2 ∖ dom m1)) (k ∈ dom m2 ∖ dom m1));
      [done|apply elem_of_elements].
Qed.

Lemma retired_dom (m1 m2 res : resource_map) :
  (∀ k, res !! k = if bool_decide (k ∈ dom m2 ∖ dom m1) then m2 !! k else None) →
  dom res = dom m2 ∖ dom m1.
Proof.
  intros Hlook. apply set_eq. intros k. rewrite elem_of_dom, Hlook.
  case_bool_decide as Hk.
  - split; [done|]. intros _. apply elem_of_difference in Hk as [Hk _].
    by apply elem_of_dom.
  - split; [by intros []|done].
Qed.

(** The [retired] property of a new differ: its keys are the keys of the
    side-2 ['retired'] map that the side-1 ['retired'] map does not have. *)
Lemma retired_fresh r1 r2 idn v :
  ∃ res self',
    retired (__init__ r1 r2 idn v) = Some (res, self') ∧
    dom res = dom (get_resources_map idn r2).2 ∖ dom (get_resources_map idn r1).2.
Proof.
  set (m1 := (get_resources_map idn r1).2). set (m2 := (get_resources_map idn r2).2).
  set (self :=
    set_resources1_set_retired (Some (dom m1))
      (set_resources1_maps (Some (get_resources_map idn r1).1) (Some m1)
        (set_resources2_set_retired (Some (dom m2))
          (set_resources2_maps (Some (get_resources_map idn r2).1) (Some m2)
            (__init__ r1 r2 idn v))))).
  destruct (retired_comprehension self m1 m2 eq_refl) as (res & Hres & Hlook).
  exists res, (set_retired (Some res) self). split.
  - change (retired (__init__ r1 r2 idn v)) with
      ((let! m := comprehension (elements (dom m2 ∖ dom m1)) (fun _ => ret true)
                    (fun _ => resources2_map_retired) in
        update (set_retired (Some m)) ;; ret m) self).
    unfold bind at 1. by rewrite Hres.
  - by apply retired_dom.
Qed.

Lemma retired_loaded r1 r2 idn v :
  ∃ res,
    retired (loaded r1 r2 idn v) = Some (res, settled res (loaded r1 r2 idn v)) ∧
    dom res = dom (active_map idn r2) ∖ dom (active_map idn r1).
Proof.
  set (m1 := active_map idn r1). set (m2 := active_map idn r2).
  set (self :=
    set_resources1_set_retired (Some (dom m1))
      (set_resources2_set_retired (Some (dom m2)) (loaded r1 r2 idn v))).
  destruct (retired_comprehension self m1 m2 eq_refl) as (res & Hres & Hlook).
  exists res. split.
  - change (retired (loaded r1 r2 idn v)) with
      ((let! m := comprehension (elements (dom m2 ∖ dom m1)) (fun _ => ret true)
                    (fun _ => resources2_map_retired) in
        update (set_retired (Some m)) ;; ret m) self).
    unfold bind at 1. by rewrite Hres.
  - by apply retired_dom.
Qed.

(** Both snapshot maps of [get_resources_map] filter on [retired=False]:
    the ['retired'] entry is the ['active'] entry. *)
Lemma retired_map_is_active_map idn resources :
  (get_resources_map idn resources).2 = (get_resources_map idn resources).1.
Proof. reflexivity. Qed.

(** On a new differ [deleted] is empty, whatever the two collections: a
    key of side 2 that side 1 lacks is always among the [retired] keys. *)
Lemma deleted_is_empty r1 r2 idn v :
  fst <$> deleted (__init__ r1 r2 idn v) = Some ∅.
Proof.
  rewrite deleted_fresh.
  destruct (retired_loaded r1 r2 idn v) as (res & Hret & Hdom).
  rewrite (comprehension_none _ _ _ (loaded r1 r2 idn v)
             (settled res (loaded r1 r2 idn v))); [done| |].
  - intros k Hk%elem_of_elements. unfold bind. rewrite Hret. unfold ret.
    rewrite bool_decide_eq_false_2; [done|]. rewrite Hdom. by intros [].
  - intros k Hk%elem_of_elements.
    change (Some (bool_decide (k ∉ dom res), settled res (loaded r1 r2 idn v))
            = Some (false, settled res (loaded r1 r2 idn v))).
    rewrite bool_decide_eq_false_2; [done|]. rewrite Hdom. by intros [].
Qed.

(** The keys of [new] and of [common] on a new differ. *)
Lemma new_keys r1 r2 idn v :
  ∃ res self',
    new (__init__ r1 r2 idn v) = Some (res, self') ∧
    dom res = dom (active_map idn r1) ∖ dom (active_map idn r2).
Proof.
  rewrite new_fresh.
  destruct (comprehension_const
              (elements (dom (active_map idn r1) ∖ dom (active_map idn r2)))
              (active_map idn r1) (fun _ => ret true) (fun _ => resources1_map)
              (fun _ => true) (loaded r1 r2 idn v)) as (res & Hres & Hlook);
    [done|done| |].
  - intros k [Hk _]%elem_of_elements%elem_of_difference _. by apply elem_of_dom.
  - exists res, (loaded r1 r2 idn v). split; [done|].
    apply set_eq. intros k. rewrite elem_of_dom, Hlook, andb_true_r.
    case_bool_decide as Hk; rewrite elem_of_elements in Hk.
    + split; [done|]. intros _. apply elem_of_difference in Hk as [Hk _].
      by apply elem_of_dom.
    + split; [by intros []|done].
Qed.

Lemma common_keys r1 r2 idn v :
  ∃ res self',
    common (__init__ r1 r2 idn v) = Some (res, self') ∧
    dom res = dom (active_map idn r1) ∩ dom (active_map idn r2).
Proof.
  rewrite common_fresh.
  destruct (comprehension_const
              (elements (dom (active_map idn r1) ∩ dom (active_map idn r2)))
              (active_map idn r1) (fun _ => ret true) (fun _ => resources1_map)
              (fun _ => true) (loaded r1 r2 idn v)) as (res & Hres & Hlook);
    [done|done| |].
  - intros k [Hk _]%elem_of_elements%elem_of_intersection _. by apply elem_of_dom.
  - exists res, (loaded r1 r2 idn v). split; [done|].
    apply set_eq. intros k. rewrite elem_of_dom, Hlook, andb_true_r.
    case_bool_decide as Hk; rewrite elem_of_elements in Hk.
    + split; [done|]. intros _. apply elem_of_intersection in Hk as [Hk _].
      by apply elem_of_dom.
    + split; [by intros []|done].
Qed.

End ChecksumDiffFacts.

(** C1. The code builds the ['retired'] snapshot map with the filter of
    the ['active'] one, [retired=False].  For a side 2 made of the one
    retired concept [c] the ['retired'] map of the code is empty, where
    the specified map holds [c], and the [retired] category of the differ
    is empty. *)
Theorem retired_map_leaves_out_retired_resources :
  (ChecksumDiff.get_resources_map "mnemonic" [concept 4 "c" "h3" true]).2 = ∅ ∧
  (get_resources_map_as_specified "mnemonic" [concept 4 "c" "h3" true]).2
    !! Some "c" = Some {| info_checksums := res_checksums (concept 4 "c" "h3" true);
                          info_id := 4 |} ∧
  fst <$> ChecksumDiff.retired
            (ChecksumDiff.__init__ [] [concept 4 "c" "h3" true] "mnemonic" 0)
    = Some ∅.
Proof. split; [|split]; vm_compute; reflexivity. Qed.

(** C2. On Scenario A the key [c], active on side 2 and missing on side 1,
    is in none of [new], [deleted] and [common]: it is counted as
    [retired], and [deleted] is empty. *)
Theorem scenario_A_deleted_is_empty :
  Some "c" ∈ dom (active_map "mnemonic" (ChecksumDiff.resources2 scenario_A)) ∧
  dom <$> (fst <$> ChecksumDiff.new scenario_A) = Some {[Some "b"]} ∧
  dom <$> (fst <$> ChecksumDiff.deleted scenario_A) = Some ∅ ∧
  dom <$> (fst <$> ChecksumDiff.common scenario_A) = Some {[Some "a"]} ∧
  dom <$> (fst <$> ChecksumDiff.retired scenario_A) = Some {[Some "c"]} ∧
  fst <$> ChecksumDiff.process false scenario_A =
    Some [("new", Listing 1 "mnemonic" {[Some "b"]});
          ("removed", Count 0);
          ("retired", Listing 1 "mnemonic" {[Some "c"]});
          ("changed", Count 0);
          ("smart_changed", Count 0);
          ("same", Listing 1 "mnemonic" {[Some "a"]});
          ("smart_same", Listing 1 "mnemonic" {[Some "a"]})].
Proof.
  split; [|repeat split; vm_compute; reflexivity].
  apply (bool_decide_unpack _). vm_compute. exact I.
Qed.

Section process_facts.
Import ChecksumDiff.

Lemma dict_set_nonempty {V} k (v : V) (d : list (string * V)) : dict_set k v d ≠ [].
Proof. destruct d as [|[k' v'] d]; simpl; [done|]. by destruct (String.eqb k k'). Qed.







End process_facts.

(** * Further properties *)

(** ** The serializer and the recursion limit *)

Lemma serialize_items_mono (ser ser' : value → option string) (d : dict) keys acc r :
  (∀ v s, ser v = Some s → ser' v = Some s) →
  serialize_items ser d keys acc = Some r →
  serialize_items ser' d keys acc = Some r.
Proof.
  intros Hser. revert acc.
  induction keys as [|key keys IH]; intros acc; cbn [serialize_items]; [done|].
  destruct (dict_subscript d key) as [v|]; [|done]. cbn [mbind option_bind].
  destruct (ser v) as [s|] eqn:Hs; [|done]. rewrite (Hser v s Hs).
  cbn [mbind option_bind]. apply IH.
Qed.

Lemma serialize_step_mono generic_sort (ser ser' : value → option string) obj r :
  (∀ v s, ser v = Some s → ser' v = Some s) →
  serialize_step generic_sort ser obj = Some r →
  serialize_step generic_sort ser' obj = Some r.
Proof.
  intros Hser. unfold serialize_step.
  destruct (match obj with VList [x] => x | _ => obj end) as [| | | | |l|d];
    try done.
  - destruct (generic_sort l) as [sorted|]; [|done]. cbn [mbind option_bind].
    destruct (mapM ser sorted) as [parts|] eqn:Hparts; [|done].
    assert (mapM ser' sorted = Some parts) as ->; [|done].
    apply mapM_Some. apply mapM_Some in Hparts.
    eapply Forall2_impl; [exact Hparts|]. intros x y. apply Hser.
  - destruct (generic_sort (VStr <$> dict_keys d)) as [keys|]; [|done].
    cbn [mbind option_bind].
    destruct (Json.dumps (VList keys)) as [dumped|]; [|done].
    cbn [mbind option_bind].
    destruct (serialize_items ser d keys _) as [acc|] eqn:Hacc; [|done].
    by rewrite (serialize_items_mono ser ser' d keys _ acc Hser Hacc).
Qed.

Lemma serialize_mono_S generic_sort depth v s :
  _serialize generic_sort depth v = Some s →
  _serialize generic_sort (S depth) v = Some s.
Proof.
  revert v s. induction depth as [|depth IH]; intros v s; [done|].
  rewrite !serialize_unfold. apply serialize_step_mono, IH.
Qed.

(** X1. A serialization that was returned within some recursion depth is
    returned unchanged within every larger depth; the digest of a value
    does not depend on the recursion limit once the limit is large
    enough. *)
Theorem serialize_depth_monotone generic_sort (depth depth' : nat) v s :
  (depth ≤ depth')%nat →
  _serialize generic_sort depth v = Some s →
  _serialize generic_sort depth' v = Some s ∧
  generate generic_sort depth' v = generate generic_sort depth v.
Proof.
  intros Hle Hs.
  assert (_serialize generic_sort depth' v = Some s) as Hs'.
  { induction Hle as [|depth' _ IH]; [done|]. by apply serialize_mono_S. }
  split; [done|]. unfold generate. by rewrite Hs, Hs'.
Qed.

Lemma serialize_depth_monotone_witness :
  _serialize GenericSort.generic_sort 7 (VList [VInt 2; VList [VInt 3; VInt 1]])
    = Some "[2,[1,3]]" ∧
  generate GenericSort.generic_sort 7 (VList [VInt 2; VList [VInt 3; VInt 1]])
    = generate GenericSort.generic_sort 3 (VList [VInt 2; VList [VInt 3; VInt 1]]).
Proof.
  apply (serialize_depth_monotone GenericSort.generic_sort 3 7).
  - lia.
  - reflexivity.
Defined.

(** ** The serialization is printable ASCII *)

Lemma value_ind_nested (P : value → Prop) :
  P VNone →
  (∀ b, P (VBool b)) →
  (∀ z, P (VInt z)) →
  (∀ s, P (VStr s)) →
  (∀ s, P (VUUID s)) →
  (∀ l, Forall P l → P (VList l)) →
  (∀ d : dict, Forall (fun item => P item.2) d → P (VDict d)) →
  ∀ v, P v.
Proof.
  intros HN HB HI HS HU HL HD.
  refine (fix IH (v : value) : P v :=
            match v with
            | VNone => HN
            | VBool b => HB b
            | VInt z => HI z
            | VStr s => HS s
            | VUUID s => HU s
            | VList l =>
                HL l ((fix go (l : list value) : Forall P l :=
                         match l with
                         | [] => @List.Forall_nil _ P
                         | x :: l' => @List.Forall_cons _ P x l' (IH x) (go l')
                         end) l)
            | VDict d =>
                HD d ((fix go (d : list (string * value))
                         : Forall (fun item => P item.2) d :=
                         match d with
                         | [] => @List.Forall_nil _ (fun item => P item.2)
                         | (k, x) :: d' =>
                             @List.Forall_cons _ (fun item => P item.2) (k, x) d' (IH x) (go d')
                         end) d)
            end).
Qed.

Lemma all_printable_app s1 s2 :
  all_printable (s1 +:+ s2) = all_printable s1 && all_printable s2.
Proof.
  induction s1 as [|c s1 IH]; simpl; [done|].
  by rewrite IH, andb_assoc.
Qed.

Lemma all_printable_join sep parts :
  all_printable sep = true →
  Forall (fun p => all_printable p = true) parts →
  all_printable (join sep parts) = true.
Proof.
  intros Hsep. induction 1 as [|p parts Hp Hparts IH]; [done|].
  cbn [join]. destruct parts as [|q parts]; [done|].
  by rewrite !all_printable_app, Hp, Hsep, IH.
Qed.

Lemma escape_char_printable c : all_printable (Json.escape_char c) = true.
Proof.
  destruct c as [b0 b1 b2 b3 b4 b5 b6 b7].
  destruct b0, b1, b2, b3, b4, b5, b6, b7; reflexivity.
Qed.

Lemma escape_printable s : all_printable (Json.escape s) = true.
Proof.
  unfold Json.escape. induction s as [|c s IH]; [done|].
  cbn [list_ascii_of_string fmap list_fmap String.concat].
  destruct (Json.escape_char <$> list_ascii_of_string s) as [|e es] eqn:E.
  - apply escape_char_printable.
  - by rewrite !all_printable_app, escape_char_printable, IH.
Qed.

Lemma dumps_str_printable s : all_printable (Json.dumps_str s) = true.
Proof.
  unfold Json.dumps_str. cbn [all_printable].
  by rewrite all_printable_app, escape_printable.
Qed.

Lemma string_of_uint_printable d :
  all_printable (DecimalString.NilEmpty.string_of_uint d) = true.
Proof. induction d; cbn; auto. Qed.

Lemma nilzero_string_of_uint_printable d :
  all_printable (DecimalString.NilZero.string_of_uint d) = true.
Proof.
  destruct d; try done;
    unfold DecimalString.NilZero.string_of_uint; apply string_of_uint_printable.
Qed.

Lemma dumps_int_printable z : all_printable (Json.dumps_int z) = true.
Proof.
  unfold Json.dumps_int, DecimalString.NilZero.string_of_int.
  destruct (Z.to_int z) as [d|d].
  - apply nilzero_string_of_uint_printable.
  - cbn [all_printable]. by rewrite nilzero_string_of_uint_printable.
Qed.

Lemma dumps_printable v out : Json.dumps v = Some out → all_printable out = true.
Proof.
  revert out. induction v as [|[]|z|s|s|l IH|d IH] using value_ind_nested;
    intros out; cbn [Json.dumps]; try (intros [= <-]; done).
  - intros [= <-]. apply dumps_int_printable.
  - intros [= <-]. apply dumps_str_printable.
  - match goal with |- context [?items l] => set (go := items) end.
    assert (∀ parts, go l = Some parts →
              Forall (fun p => all_printable p = true) parts) as Hgo.
    { induction IH as [|x l Hx _ IHl]; intros parts; cbn; [by intros [= <-]|].
      destruct (Json.dumps x) as [p|]; [|done]. cbn.
      destruct (go l) as [ps|]; [|done]. cbn. intros [= <-].
      constructor; [by apply Hx|by apply IHl]. }
    destruct (go l) as [parts|]; [|done]. cbn. intros [= <-].
    rewrite !all_printable_app, all_printable_join; [done|done|by apply Hgo].
  - match goal with |- context [?items d] => set (go := items) end.
    assert (∀ parts, go d = Some parts →
              Forall (fun p => all_printable p = true) parts) as Hgo.
    { induction IH as [|[k x] d Hx _ IHd]; intros parts; cbn; [by intros [= <-]|].
      cbn [snd] in Hx. destruct (Json.dumps x) as [p|]; [|done]. cbn.
      destruct (go d) as [ps|]; [|done]. cbn. intros [= <-].
      constructor; [|by apply IHd].
      rewrite !all_printable_app, dumps_str_printable. cbn. by apply Hx. }
    destruct (go d) as [parts|]; [|done]. cbn. intros [= <-].
    rewrite !all_printable_app, all_printable_join; [done|done|by apply Hgo].
Qed.

Lemma serialize_items_printable (ser : value → option string) (d : dict) keys acc r :
  (∀ v s, ser v = Some s → all_printable s = true) →
  all_printable acc = true →
  serialize_items ser d keys acc = Some r →
  all_printable r = true.
Proof.
  intros Hser. revert acc.
  induction keys as [|key keys IH]; intros acc Hacc; cbn [serialize_items].
  - by intros [= <-].
  - destruct (dict_subscript d key) as [v|]; [|done]. cbn [mbind option_bind].
    destruct (ser v) as [s|] eqn:Hs; [|done]. cbn [mbind option_bind].
    apply IH. by rewrite !all_printable_app, Hacc, (Hser v s Hs).
Qed.

Lemma serialize_step_printable generic_sort (ser : value → option string) obj r :
  (∀ v s, ser v = Some s → all_printable s = true) →
  serialize_step generic_sort ser obj = Some r →
  all_printable r = true.
Proof.
  intros Hser. unfold serialize_step.
  destruct (match obj with VList [x] => x | _ => obj end) as [| | | | |l|d];
    try apply dumps_printable.
  - destruct (generic_sort l) as [sorted|]; [|done]. cbn [mbind option_bind].
    destruct (mapM ser sorted) as [parts|] eqn:Hparts; [|done].
    cbn [mbind option_bind]. intros [= <-].
    rewrite !all_printable_app, all_printable_join; [done|done|].
    apply mapM_Some in Hparts.
    induction Hparts as [|x p sorted parts Hx _ IH]; constructor; [|done].
    by apply (Hser x).
  - destruct (generic_sort (VStr <$> dict_keys d)) as [keys|]; [|done].
    cbn [mbind option_bind].
    destruct (Json.dumps (VList keys)) as [dumped|] eqn:Hdumped; [|done].
    cbn [mbind option_bind].
    destruct (serialize_items ser d keys _) as [acc|] eqn:Hacc; [|done].
    cbn [mbind option_bind]. intros [= <-].
    rewrite all_printable_app, andb_true_r.
    eapply serialize_items_printable; [exact Hser| |exact Hacc].
    cbn [String.append all_printable]. by apply dumps_printable in Hdumped.
Qed.

Lemma encode_utf8_printable s :
  all_printable s = true →
  encode_utf8 s = Json.code <$> list_ascii_of_string s.
Proof.
  unfold encode_utf8. induction s as [|c s IH]; [done|].
  cbn [all_printable list_ascii_of_string].
  intros [Hc Hs]%andb_true_iff. cbn. rewrite <- (IH Hs).
  unfold printable in Hc. apply andb_true_iff in Hc as [_ Hc].
  by rewrite (proj2 (Z.ltb_lt (Json.code c) 128)) by lia.
Qed.

(** X2. For a value whose strings hold code points below 256 (the
    strings of this model), whatever these are, the serialization is made
    of printable ASCII characters only, [json.dumps] escaping all others,
    so that its UTF-8 encoding, the input of the hash, has one byte for
    each character. *)
Theorem serialize_printable_ascii generic_sort depth v s :
  _serialize generic_sort depth v = Some s →
  all_printable s = true ∧
  encode_utf8 s = Json.code <$> list_ascii_of_string s.
Proof.
  intros Hs.
  assert (all_printable s = true) as Hp.
  { revert v s Hs. induction depth as [|depth IH]; intros v s; [done|].
    rewrite serialize_unfold. apply serialize_step_printable, IH. }
  split; [done|]. by apply encode_utf8_printable.
Qed.

Lemma serialize_printable_ascii_witness :
  all_printable "[-5,10]" = true ∧
  encode_utf8 "[-5,10]" = Json.code <$> list_ascii_of_string "[-5,10]".
Proof.
  apply (serialize_printable_ascii GenericSort.generic_sort 3
           (VList [VInt 10; VInt (-5)])).
  reflexivity.
Defined.

(** ** The shape of a digest *)

Lemma le_bytes_length n x : length (MD5.le_bytes n x) = n.
Proof. revert x. induction n as [|n IH]; intros x; cbn; [done|]. by rewrite IH. Qed.

Lemma le_bytes_range n x : Forall (fun b => 0 ≤ b < 256) (MD5.le_bytes n x).
Proof.
  revert x. induction n as [|n IH]; intros x; cbn; constructor; [|done].
  change 255 with (Z.ones 8). rewrite Z.land_ones by lia.
  apply Z.mod_pos_bound. lia.
Qed.

Lemma hex_digit_hex n : 0 ≤ n < 16 → hex_char (Json.hex_digit n) = true.
Proof.
  intros Hn.
  assert (forallb (fun i => hex_char (Json.hex_digit (Z.of_nat i))) (seq 0 16) = true)
    as Hall by reflexivity.
  rewrite forallb_forall in Hall.
  rewrite <- (Z2Nat.id n) by lia. apply Hall, in_seq. lia.
Qed.

Lemma all_hex_app s1 s2 : all_hex (s1 +:+ s2) = all_hex s1 && all_hex s2.
Proof.
  induction s1 as [|c s1 IH]; simpl; [done|]. by rewrite IH, andb_assoc.
Qed.

Lemma length_app_string s1 s2 :
  String.length (s1 +:+ s2) = (String.length s1 + String.length s2)%nat.
Proof. induction s1 as [|c s1 IH]; simpl; [done|]. by rewrite IH. Qed.

Lemma concat_empty_cons x (l : list string) :
  String.concat EmptyString (x :: l) = x +:+ String.concat EmptyString l.
Proof.
  destruct l as [|y l]; [|done]. simpl.
  induction x as [|c x IH]; [done|].
  change (String c x +:+ EmptyString) with (String c (x +:+ EmptyString)).
  by f_equal.
Qed.

Lemma hex_bytes_shape (bytes : list Z) :
  Forall (fun b => 0 ≤ b < 256) bytes →
  String.length (String.concat EmptyString (Json.hex_byte <$> bytes))
    = (2 * length bytes)%nat ∧
  all_hex (String.concat EmptyString (Json.hex_byte <$> bytes)) = true.
Proof.
  induction 1 as [|b bytes Hb _ [IHlen IHhex]]; [done|].
  assert (all_hex (Json.hex_byte b) = true) as Hhex.
  { unfold Json.hex_byte. cbn [all_hex].
    rewrite !hex_digit_hex; [done| |].
    - apply Z.mod_pos_bound. lia.
    - split; [apply Z.div_pos; lia|apply Z.div_lt_upper_bound; lia]. }
  rewrite fmap_cons, concat_empty_cons.
  rewrite length_app_string, all_hex_app, Hhex, IHlen, IHhex.
  split; [|done]. cbn [length String.length Json.hex_byte]. lia.
Qed.

Lemma hexdigest_shape msg :
  String.length (MD5.hexdigest msg) = 32%nat ∧ all_hex (MD5.hexdigest msg) = true.
Proof.
  unfold MD5.hexdigest, MD5.digest.
  destruct (MD5.blocks _ _ _) as [[[a b] c] d].
  destruct (hex_bytes_shape
              (MD5.le_bytes 4 a ++ MD5.le_bytes 4 b ++ MD5.le_bytes 4 c
               ++ MD5.le_bytes 4 d)) as [Hlen Hhex].
  { rewrite !Forall_app. auto using le_bytes_range. }
  split; [|done]. rewrite Hlen, !length_app, !le_bytes_length. done.
Qed.

(** X3. A digest that [generate] returns is a string of 32 lowercase
    hexadecimal digits; in particular it is never empty. *)
Theorem generate_digest_shape generic_sort recursion_limit obj h :
  generate generic_sort recursion_limit obj = Some h →
  String.length h = 32%nat ∧ all_hex h = true ∧ truthy_str h = true.
Proof.
  unfold generate.
  destruct (_serialize generic_sort recursion_limit obj) as [s|]; [|done].
  intros [= <-]. destruct (hexdigest_shape (encode_utf8 s)) as [Hlen Hhex].
  split; [done|]. split; [done|].
  unfold truthy_str. by destruct (MD5.hexdigest (encode_utf8 s)).
Qed.

Lemma generate_digest_shape_witness :
  String.length "f79408e5ca998cd53faf44af31e6eb45" = 32%nat ∧
  all_hex "f79408e5ca998cd53faf44af31e6eb45" = true ∧
  truthy_str "f79408e5ca998cd53faf44af31e6eb45" = true.
Proof.
  apply (generate_digest_shape GenericSort.generic_sort 3 (VList [VInt 1; VInt 2])).
  vm_compute. reflexivity.
Defined.

(** ** The checksum of several values *)

Lemma mapM_Permutation {A B} (f : A → option B) (l1 l2 : list A) :
  l1 ≡ₚ l2 →
  match mapM f l1, mapM f l2 with
  | Some k1, Some k2 => k1 ≡ₚ k2
  | None, None => True
  | _, _ => False
  end.
Proof.
  induction 1 as [|x l1 l2 _ IH|x y l|l1 l2 l3 _ IH1 _ IH2]; cbn.
  - done.
  - destruct (f x); cbn; [|done].
    destruct (mapM f l1), (mapM f l2); cbn; try done. by constructor.
  - destruct (f x), (f y); cbn; try done; destruct (mapM f l); cbn; try done.
    apply perm_swap.
  - destruct (mapM f l1), (mapM f l2), (mapM f l3); try done. by etrans.
Qed.

Lemma generate_digests_Permutation generic_sort recursion_limit (k1 k2 : list string) :
  sorts_strings_canonically generic_sort →
  k1 ≡ₚ k2 →
  generate generic_sort recursion_limit (VList (VStr <$> k1)) =
  generate generic_sort recursion_limit (VList (VStr <$> k2)).
Proof.
  intros Hsort Hp. unfold generate. f_equal.
  destruct recursion_limit as [|depth]; [done|].
  destruct k1 as [|a [|b k1]].
  - apply Permutation_nil_l in Hp. by subst.
  - apply Permutation_singleton_l in Hp. by subst.
  - destruct k2 as [|a' [|b' k2]].
    + by apply Permutation_nil_r in Hp.
    + by apply Permutation_singleton_r in Hp.
    + rewrite !serialize_unfold. unfold serialize_step. cbn [fmap list_fmap].
      change (generic_sort (VStr <$> a :: b :: k1) ≫=
                (fun sorted => mapM (_serialize generic_sort depth) sorted ≫=
                   fun parts => Some ("[" +:+ join "," parts +:+ "]"))
              = generic_sort (VStr <$> a' :: b' :: k2) ≫=
                (fun sorted => mapM (_serialize generic_sort depth) sorted ≫=
                   fun parts => Some ("[" +:+ join "," parts +:+ "]"))).
      by rewrite (Hsort _ _ Hp).
Qed.

(** X4. The combined checksum of a list of values does not depend on the
    order of the values, for every [generic_sort] that orders two lists of
    the same strings alike: the digests of the values are sorted before
    they are hashed together. *)
Theorem generate_from_many_order_independent generic_sort recursion_limit
    (l1 l2 : list value) :
  sorts_strings_canonically generic_sort →
  l1 ≡ₚ l2 →
  generate_checksum_from_many generic_sort recursion_limit (VList l1) =
  generate_checksum_from_many generic_sort recursion_limit (VList l2).
Proof.
  intros Hsort Hp. unfold generate_checksum_from_many.
  pose proof (mapM_Permutation
                (fun _data => generate generic_sort recursion_limit (_cleanup _data))
                l1 l2 Hp) as Hm.
  destruct (mapM _ l1) as [k1|], (mapM _ l2) as [k2|]; try done.
  cbn [mbind option_bind].
  destruct k1 as [|a [|b k1]].
  - apply Permutation_nil_l in Hm. by subst.
  - apply Permutation_singleton_l in Hm. by subst.
  - destruct k2 as [|a' [|b' k2]].
    + by apply Permutation_nil_r in Hm.
    + by apply Permutation_singleton_r in Hm.
    + by apply generate_digests_Permutation.
Qed.

Lemma generate_from_many_order_independent_witness :
  generate_checksum_from_many GenericSort.generic_sort 3
    (VList [VInt 1; VStr "b"; VDict [("retired", VBool false)]]) =
  generate_checksum_from_many GenericSort.generic_sort 3
    (VList [VDict [("retired", VBool false)]; VInt 1; VStr "b"]).
Proof.
  apply generate_from_many_order_independent.
  - intros l1 l2. apply GenericSortFacts.generic_sort_keys.
  - symmetry. apply (Permutation_cons_append [VInt 1; VStr "b"]).
Defined.

(** ** What cleanup leaves *)

Lemma elem_of_dict_set {V} k (v : V) (d : list (string * V)) item :
  item ∈ dict_set k v d → item = (k, v) ∨ item ∈ d.
Proof.
  induction d as [|[k' v'] d IH]; cbn [dict_set].
  - intros ->%list_elem_of_singleton. by left.
  - destruct (String.eqb_spec k k') as [->|Hne].
    + intros [->|Hin]%elem_of_cons; [by left|]. right. by right.
    + intros [->|Hin]%elem_of_cons; [right; left|].
      destruct (IH Hin) as [->|Hd]; [by left|]. right. by right.
Qed.

Lemma without_dunder_keys_clean (extras : dict) :
  existsb startswith_dunder (dict_keys (without_dunder_keys extras)) = false.
Proof.
  induction extras as [|[k v] extras IH]; [done|].
  unfold without_dunder_keys in *. cbn [List.filter fst].
  destruct (startswith_dunder k) eqn:Hk; cbn [negb]; [exact IH|].
  unfold dict_keys in *. cbn [fmap list_fmap fst existsb].
  by rewrite Hk.
Qed.

Lemma cleaned_value_unfold k v :
  v ≠ VNone →
  cleaned_value k v =
    if String.eqb k "retired" && negb (truthy v) then None
    else if String.eqb k "is_active" && truthy v then None
    else if String.eqb k "extras" then
      if negb (truthy v) then None
      else match v with
           | VDict extras => Some (VDict (without_dunder_keys extras))
           | _ => Some v
           end
    else Some v.
Proof. by destruct v. Qed.

Lemma cleaned_value_clean k v v' :
  cleaned_value k v = Some v' → clean_item (k, v').
Proof.
  intros H.
  assert (v ≠ VNone) as Hnone by (by intros ->).
  rewrite cleaned_value_unfold in H by done.
  unfold clean_item. cbn [fst snd].
  destruct (String.eqb_spec k "retired") as [->|Hret]; cbn [andb] in H.
  - destruct (truthy v) eqn:T; cbn in H; [|done]. injection H as <-.
    repeat split; done.
  - destruct (String.eqb_spec k "is_active") as [->|Hact]; cbn [andb] in H.
    + destruct (truthy v) eqn:T; [done|]. cbn in H. injection H as <-.
      repeat split; done.
    + destruct (String.eqb_spec k "extras") as [->|Hext].
      * destruct (truthy v) eqn:T; cbn [negb] in H; [|done].
        destruct v as [| | | | | |extras]; injection H as <-;
          (split; [done|split; [done|split; [done|]]]);
          intros _ extras' [= <-].
        apply without_dunder_keys_clean.
      * injection H as <-. repeat split; done.
Qed.

(** X5. Whatever mapping it is given, [_cleanup] returns a mapping in
    which no field is null, no [retired] field is falsy, no [is_active]
    field is truthy and no [extras] mapping has a key that starts with a
    double underscore. *)
Theorem cleanup_leaves_clean_items (fields : dict) :
  ∃ out : dict,
    _cleanup (VDict fields) = VDict out ∧ Forall clean_item out.
Proof.
  eexists. split; [reflexivity|].
  assert (∀ result, Forall clean_item result →
            Forall clean_item (fold_left cleanup_item fields result)) as H.
  { induction fields as [|[k v] fields IH]; intros result Hres; [done|].
    cbn [fold_left]. apply IH. rewrite cleanup_item_cleaned.
    destruct (cleaned_value k v) as [v'|] eqn:Hv; [|done].
    apply Forall_forall. intros item [->|Hin]%elem_of_dict_set.
    - by eapply cleaned_value_clean.
    - rewrite Forall_forall in Hres. by apply Hres. }
  apply H. constructor.
Qed.

(** X6. On a mapping with distinct keys, [_cleanup] adds no field,
    repeats none and keeps the fields it keeps in the order they had. *)
Theorem cleanup_keeps_order (fields : dict) :
  NoDup (dict_keys fields) →
  ∃ out : dict,
    _cleanup (VDict fields) = VDict out ∧
    dict_keys out `sublist_of` dict_keys fields ∧
    NoDup (dict_keys out).
Proof.
  intros Hnd. exists (cleaned_items fields).
  split; [by apply cleanup_dict|].
  split; [apply dict_keys_cleaned_items|].
  eapply sublist_NoDup; [exact Hnd|apply dict_keys_cleaned_items].
Qed.

Lemma cleanup_keeps_order_witness :
  ∃ out : dict,
    _cleanup (VDict [("id", VStr "A"); ("retired", VBool false);
                     ("names", VList [VStr "n"]); ("is_active", VBool true)])
      = VDict out ∧
    dict_keys out `sublist_of` ["id"; "retired"; "names"; "is_active"] ∧
    NoDup (dict_keys out).
Proof.
  apply (cleanup_keeps_order
           [("id", VStr "A"); ("retired", VBool false);
            ("names", VList [VStr "n"]); ("is_active", VBool true)]).
  apply (bool_decide_unpack _). vm_compute. exact I.
Defined.

Lemma cleaned_value_fixed k v v' :
  (k = "extras" → ∀ item extras,
     v = VDict (item :: extras) → without_dunder_keys (item :: extras) ≠ []) →
  cleaned_value k v = Some v' → cleaned_value k v' = Some v'.
Proof.
  intros Hextras Hv.
  assert (v ≠ VNone) as Hnone by (by intros ->).
  pose proof Hv as Hv0. rewrite cleaned_value_unfold in Hv by done.
  destruct (String.eqb_spec k "retired") as [->|Hret]; cbn [andb] in Hv.
  - destruct (truthy v) eqn:T; cbn in Hv; [|done]. injection Hv as <-.
    rewrite cleaned_value_unfold by done. by rewrite T.
  - destruct (String.eqb_spec k "is_active") as [->|Hact]; cbn [andb] in Hv.
    + destruct (truthy v) eqn:T; [done|]. cbn in Hv. injection Hv as <-.
      rewrite cleaned_value_unfold by done. by rewrite T.
    + destruct (String.eqb_spec k "extras") as [->|Hext].
      * destruct (truthy v) eqn:T; cbn [negb] in Hv; [|done].
        destruct v as [| | | | | |[|item extras]]; try done;
          try (injection Hv as <-;
               rewrite cleaned_value_unfold by done; by rewrite T).
        specialize (Hextras eq_refl item extras eq_refl).
        assert (v' = VDict (without_dunder_keys (item :: extras))) as ->
          by (by injection Hv).
        destruct (without_dunder_keys (item :: extras)) as [|item' extras'] eqn:E;
          [done|].
        rewrite cleaned_value_nested by done. cbn [String.eqb Ascii.eqb Bool.eqb].
        by rewrite <- E, without_dunder_keys_idemp.
      * injection Hv as <-. rewrite cleaned_value_unfold by done.
        rewrite (proj2 (String.eqb_neq k "retired") Hret).
        rewrite (proj2 (String.eqb_neq k "is_active") Hact).
        by rewrite (proj2 (String.eqb_neq k "extras") Hext).
Qed.

(** X7. Cleanup is idempotent on every mapping with distinct keys whose
    [extras] mapping, when it is not empty, has a key that does not start
    with a double underscore: cleaning a cleaned mapping changes nothing. *)
Theorem cleanup_idempotent (fields : dict) :
  NoDup (dict_keys fields) →
  extras_keep_a_key fields = true →
  _cleanup (_cleanup (VDict fields)) = _cleanup (VDict fields).
Proof.
  intros Hnd Hkeep. rewrite (cleanup_dict fields Hnd).
  rewrite cleanup_dict
    by (eapply sublist_NoDup; [exact Hnd|apply dict_keys_cleaned_items]).
  f_equal.
  assert (Forall (fun item =>
            ∀ v', cleaned_value item.1 item.2 = Some v' →
                  cleaned_value item.1 v' = Some v') fields) as Hall.
  { apply Forall_forall. intros [k v] Hin v'. cbn [fst snd].
    apply cleaned_value_fixed. intros -> item extras ->.
    apply dict_get_Some in Hin; [|done].
    unfold extras_keep_a_key in Hkeep. rewrite Hin in Hkeep.
    by apply without_dunder_keys_nonempty. }
  clear Hnd Hkeep. unfold cleaned_items.
  induction Hall as [|[k v] fields Hv _ IH]; [done|].
  cbn [omap list_omap fst snd] in *.
  destruct (cleaned_value k v) as [v'|] eqn:E; cbn; [|done].
  cbn [omap list_omap fst snd]. rewrite (Hv v' eq_refl). cbn. by rewrite IH.
Qed.

Lemma cleanup_idempotent_witness :
  _cleanup (_cleanup (VDict [("id", VStr "A"); ("x", VNone);
                             ("extras", VDict [("__internal", VStr "x");
                                               ("note", VStr "y")])])) =
  _cleanup (VDict [("id", VStr "A"); ("x", VNone);
                   ("extras", VDict [("__internal", VStr "x"); ("note", VStr "y")])]).
Proof.
  apply cleanup_idempotent.
  - apply (bool_decide_unpack _). vm_compute. exact I.
  - reflexivity.
Defined.

(** ** The checksum cache: the checksum property *)

Section checksum_cache_more.
Variable generic_sort : list value → option (list value).
Variable recursion_limit : nat.
Variable STANDARD_CHECKSUM_KEY SMART_CHECKSUM_KEY : string.
Variable get_standard_checksum_fields : ChecksumModel → option value.
Variable get_smart_checksum_fields : ChecksumModel → option value.
Variable calculate_checksums : option checksums_map → option (option checksums_map).




End checksum_cache_more.




(** X11. A resource type with an empty [SMART_CHECKSUM_KEY] has only the
    standard checksum: [get_all_checksums] never asks for the smart fields
    (its result is the same whatever [get_smart_checksum_fields] does), the
    mapping it returns has the standard key and no other, and
    [has_all_checksums] holds of an object that stores it. *)
Theorem single_checksum_kind generic_sort recursion_limit
    (STANDARD_CHECKSUM_KEY : string)
    get_standard_checksum_fields get_smart_checksum_fields
    get_smart_checksum_fields' (self : ChecksumModel) :
  truthy_str STANDARD_CHECKSUM_KEY = true →
  let get_all smart_fields :=
    get_all_checksums generic_sort recursion_limit true
      STANDARD_CHECKSUM_KEY EmptyString
      get_standard_checksum_fields smart_fields self in
  get_all get_smart_checksum_fields = get_all get_smart_checksum_fields' ∧
  ∀ m self',
    get_all get_smart_checksum_fields = Some (Some m, self') →
    dom m = {[STANDARD_CHECKSUM_KEY]} ∧
    has_all_checksums STANDARD_CHECKSUM_KEY EmptyString
      (set_checksums_field (Some m) self)
      = Some (true, set_checksums_field (Some m) self).
Proof.
  intros Hkey get_all. split; [subst get_all; unfold get_all_checksums; done|].
  intros m self'. subst get_all. unfold get_all_checksums.
  rewrite Hkey. cbn [truthy_str String.eqb negb].
  unfold bind at 1. unfold bind at 1.
  destruct (_calculate_standard_checksum _ _ _ self) as [[h s1]|]; [|done].
  unfold ret, bind. intros [= <- <-].
  split; [by rewrite dom_insert_L, dom_empty_L, (right_id_L ∅ (∪))|].
  unfold has_all_checksums, has_standard_checksum, has_smart_checksum.
  rewrite Hkey. cbn [truthy_str String.eqb negb].
  unfold bind, read, try, ret. cbn [checksums set_checksums_field].
  rewrite bool_decide_eq_true_2; [done|]. rewrite lookup_insert_eq. eauto.
Qed.

Lemma single_checksum_kind_witness :
  let self := {| attributes := [("id", VStr "A")]; checksums := None;
                 saved_checksums := None |} in
  let m : checksums_map :=
    {["standard" := Some "37ca88abf80babfd6add51e03df6a51f"]} in
  dom m = {["standard"]} ∧
  has_all_checksums "standard" EmptyString (set_checksums_field (Some m) self)
    = Some (true, set_checksums_field (Some m) self).
Proof.
  intros self m.
  apply (proj2 (single_checksum_kind GenericSort.generic_sort 5 "standard"
                  (fun self => Some (VDict (attributes self)))
                  (fun _ => None) (fun _ => None) self eq_refl) m self).
  vm_compute. reflexivity.
Defined.

(** ** The fields of a checksum *)

Lemma dict_get_set {V} f k (v : V) (d : list (string * V)) :
  dict_get f (dict_set k v d) = if String.eqb f k then Some v else dict_get f d.
Proof.
  induction d as [|[k' v'] d IH]; cbn [dict_set dict_get].
  - by destruct (String.eqb f k).
  - destruct (String.eqb_spec k k') as [->|Hne]; cbn [dict_get].
    + by destruct (String.eqb f k').
    + rewrite IH. destruct (String.eqb_spec f k') as [->|?]; [|done].
      by rewrite (proj2 (String.eqb_neq k' k)).
Qed.

Lemma dict_get_fold_set (attrs : dict) (items acc : dict) f :
  Forall (fun item => dict_get item.1 attrs = Some item.2) items →
  dict_get f (fold_left (fun d item => dict_set item.1 item.2 d) items acc) =
    if bool_decide (f ∈ items.*1) then dict_get f attrs else dict_get f acc.
Proof.
  intros Hall. revert acc.
  induction Hall as [|[k v] items Hitem _ IH]; intros acc; [done|].
  cbn [fold_left fmap list_fmap fst snd] in *. rewrite IH, dict_get_set.
  destruct (String.eqb_spec f k) as [->|Hne].
  - rewrite (bool_decide_eq_true_2 (k ∈ k :: items.*1)) by left.
    by case_bool_decide.
  - rewrite (bool_decide_ext (f ∈ k :: items.*1) (f ∈ items.*1)); [done|].
    rewrite elem_of_cons. split; [by intros [?|?]|by right].
Qed.

(** X12. [get_checksum_fields] raises exactly when one of the fields of
    [CHECKSUM_INCLUSIONS] is not an attribute of the object; otherwise it
    returns a mapping that holds the included fields, each with the value
    of the attribute, and no other field. *)
Theorem get_checksum_fields_spec (CHECKSUM_INCLUSIONS : list string)
    (self : ChecksumModel) :
  (get_checksum_fields CHECKSUM_INCLUSIONS self = None ↔
   ∃ field, field ∈ CHECKSUM_INCLUSIONS ∧ dict_get field (attributes self) = None) ∧
  (∀ fields, get_checksum_fields CHECKSUM_INCLUSIONS self = Some fields →
   ∃ d : dict,
     fields = VDict d ∧
     ∀ field, dict_get field d =
       if bool_decide (field ∈ CHECKSUM_INCLUSIONS)
       then dict_get field (attributes self) else None).
Proof.
  unfold get_checksum_fields.
  set (g := fun field : string =>
              v ← dict_get field (attributes self); Some (field, v)).
  split.
  - destruct (mapM g CHECKSUM_INCLUSIONS) as [items|] eqn:E; cbn.
    + split; [done|]. intros (field & Hin & Hnone).
      assert (is_Some (mapM g CHECKSUM_INCLUSIONS)) as Hsome by (rewrite E; eauto).
      apply mapM_is_Some in Hsome. rewrite Forall_forall in Hsome.
      destruct (Hsome field Hin) as [item Hitem]. unfold g in Hitem.
      cbn in Hitem. by rewrite Hnone in Hitem.
    + split; [|done]. intros _. apply mapM_None in E.
      apply Exists_exists in E as (field & Hin & Hnone). exists field.
      split; [done|]. unfold g in Hnone.
      by destruct (dict_get field (attributes self)).
  - intros fields. destruct (mapM g CHECKSUM_INCLUSIONS) as [items|] eqn:E;
      [|done]. cbn. intros [= <-]. eexists. split; [reflexivity|].
    apply mapM_Some in E.
    assert (items.*1 = CHECKSUM_INCLUSIONS ∧
            Forall (fun item => dict_get item.1 (attributes self) = Some item.2) items)
      as [Hkeys Hall].
    { induction E as [|field item incl items Hitem _ [IH1 IH2]]; [done|].
      unfold g in Hitem.
      destruct (dict_get field (attributes self)) as [v|] eqn:Hv; [|done].
      injection Hitem as <-. cbn. split; [by rewrite IH1|]. by constructor. }
    intros field. rewrite (dict_get_fold_set (attributes self)) by done.
    rewrite Hkeys. by case_bool_decide.
Qed.

Lemma get_checksum_fields_spec_witness :
  let self := {| attributes := [("id", VStr "A"); ("names", VList [VStr "n"])];
                 checksums := None; saved_checksums := None |} in
  get_checksum_fields ["names"; "owner"] self = None.
Proof.
  intros self.
  apply (proj1 (get_checksum_fields_spec ["names"; "owner"] self)).
  exists "owner". split; [|reflexivity]. apply (bool_decide_unpack _). by vm_compute.
Defined.

(** ** Snapshot maps *)

Lemma get_resource_map_snoc idn rs r :
  ChecksumDiff._get_resource_map idn (rs ++ [r]) =
  <[identity_of idn r := info_of r]> (ChecksumDiff._get_resource_map idn rs).
Proof. unfold ChecksumDiff._get_resource_map. by rewrite fold_left_app. Qed.

(** X13. A snapshot map holds, under each identity key, the entry of the
    last resource of the collection that has this key, an earlier resource
    with the same key being replaced; a resource without the identity
    attribute is filed under [None].  The keys of the map are the identity
    keys of the resources. *)
Theorem get_resource_map_lookup idn (resources : list resource) (k : key) :
  ChecksumDiff._get_resource_map idn resources !! k =
    info_of <$> last (filter (fun r => identity_of idn r = k) resources) ∧
  (k ∈ dom (ChecksumDiff._get_resource_map idn resources) ↔
   k ∈ identity_of idn <$> resources).
Proof.
  assert (ChecksumDiff._get_resource_map idn resources !! k =
          info_of <$> last (filter (fun r => identity_of idn r = k) resources))
    as Hlook.
  { induction resources as [|r rs IH] using rev_ind; [done|].
    rewrite get_resource_map_snoc, filter_app, filter_cons, filter_nil.
    destruct (decide (identity_of idn r = k)) as [<-|Hne].
    - by rewrite lookup_insert_eq, last_snoc.
    - by rewrite lookup_insert_ne, (right_id_L [] (++)). }
  split; [done|]. rewrite elem_of_dom, Hlook, fmap_is_Some, list_elem_of_fmap.
  split.
  - intros [r Hr]. apply last_Some_elem_of, list_elem_of_filter in Hr as [<- Hin].
    by exists r.
  - intros (r & -> & Hin).
    destruct (last (filter (fun r0 => identity_of idn r0 = identity_of idn r)
                      resources)) as [r'|] eqn:E; [by eexists|].
    apply last_None in E.
    assert (r ∈ filter (fun r0 => identity_of idn r0 = identity_of idn r) resources)
      as Hr by (by apply list_elem_of_filter).
    rewrite E in Hr. by apply not_elem_of_nil in Hr.
Qed.

(** ** The categories of the differ *)

Module ChecksumDiffMore.
Import ChecksumDiff.

Lemma same_but_memo_refl self : same_but_memo self self.
Proof. by repeat split. Qed.

Lemma same_but_memo_trans s1 s2 s3 :
  same_but_memo s1 s2 → same_but_memo s2 s3 → same_but_memo s1 s3.
Proof.
  unfold same_but_memo. intros (?&?&?&?&?&?&?&?&?) (?&?&?&?&?&?&?&?&?).
  repeat split; congruence.
Qed.

Lemma only_memoizes_bind {A B} (m : method t A) (k : A → method t B) :
  only_memoizes m → (∀ a, only_memoizes (k a)) → only_memoizes (bind m k).
Proof.
  intros Hm Hk self b self'. unfold bind.
  destruct (m self) as [[a s1]|] eqn:E; [|done]. intros Hb.
  eapply same_but_memo_trans; [by eapply Hm|by eapply Hk].
Qed.

Lemma only_memoizes_ret {A} (a : A) : only_memoizes (ret a).
Proof. intros self a' self' [= _ <-]. apply same_but_memo_refl. Qed.

Lemma only_memoizes_read {A} (f : t → A) : only_memoizes (read f).
Proof. intros self a' self' [= _ <-]. apply same_but_memo_refl. Qed.

Lemma only_memoizes_try {A} (o : option A) : only_memoizes (try o).
Proof.
  intros self a' self'. unfold try. destruct o; [|done].
  intros [= _ <-]. apply same_but_memo_refl.
Qed.

Lemma only_memoizes_update (f : t → t) :
  (∀ self, same_but_memo self (f self)) → only_memoizes (update f).
Proof. intros Hf self a' self' [= _ <-]. apply Hf. Qed.

Ltac memo_tac :=
  repeat first
    [ assumption
    | apply only_memoizes_ret
    | apply only_memoizes_read
    | apply only_memoizes_try
    | apply only_memoizes_update; intros ?; by repeat split
    | apply only_memoizes_bind; [|intros ?]
    | progress case_match ].

Lemma resources1_map_memo : only_memoizes resources1_map.
Proof. unfold resources1_map. memo_tac. Qed.

Lemma resources1_map_retired_memo : only_memoizes resources1_map_retired.
Proof. unfold resources1_map_retired. memo_tac. Qed.

Lemma resources2_map_memo : only_memoizes resources2_map.
Proof. unfold resources2_map. memo_tac. Qed.

Lemma resources2_map_retired_memo : only_memoizes resources2_map_retired.
Proof. unfold resources2_map_retired. memo_tac. Qed.

Lemma resources1_set_memo : only_memoizes resources1_set.
Proof. unfold resources1_set. pose proof resources1_map_memo. memo_tac. Qed.

Lemma resources1_set_retired_memo : only_memoizes resources1_set_retired.
Proof.
  unfold resources1_set_retired. pose proof resources1_map_retired_memo. memo_tac.
Qed.

Lemma resources2_set_memo : only_memoizes resources2_set.
Proof. unfold resources2_set. pose proof resources2_map_memo. memo_tac. Qed.

Lemma resources2_set_retired_memo : only_memoizes resources2_set_retired.
Proof.
  unfold resources2_set_retired. pose proof resources2_map_retired_memo. memo_tac.
Qed.

Lemma comprehension_memo keys cond value :
  (∀ k, only_memoizes (cond k)) → (∀ k, only_memoizes (value k)) →
  only_memoizes (comprehension keys cond value).
Proof.
  intros Hcond Hvalue. induction keys as [|k keys IH]; cbn [comprehension].
  - apply only_memoizes_ret.
  - pose proof (Hcond k). pose proof (Hvalue k). memo_tac.
Qed.

Lemma new_memo : only_memoizes new.
Proof.
  unfold new. pose proof resources1_set_memo. pose proof resources2_set_memo.
  memo_tac. apply comprehension_memo; intros; [memo_tac|apply resources1_map_memo].
Qed.

Lemma common_memo : only_memoizes common.
Proof.
  unfold common. pose proof resources1_set_memo. pose proof resources2_set_memo.
  memo_tac. apply comprehension_memo; intros; [memo_tac|apply resources1_map_memo].
Qed.

Lemma retired_memo : only_memoizes retired.
Proof.
  unfold retired. pose proof resources1_set_retired_memo.
  pose proof resources2_set_retired_memo.
  memo_tac. apply comprehension_memo; intros;
    [memo_tac|apply resources2_map_retired_memo].
Qed.

Lemma deleted_memo : only_memoizes deleted.
Proof.
  unfold deleted. pose proof resources1_set_memo. pose proof resources2_set_memo.
  memo_tac. apply comprehension_memo; intros.
  - pose proof retired_memo. memo_tac.
  - apply resources2_map_memo.
Qed.

End ChecksumDiffMore.

(** X14. Reading [new], [deleted], [retired] or [common], in whatever
    state the differ is, writes memoized values only: the two resource
    collections, the identity, the verbosity, the populated categories
    and the cached result stay as they are. *)
Theorem categories_only_memoize :
  only_memoizes ChecksumDiff.new ∧ only_memoizes ChecksumDiff.deleted ∧
  only_memoizes ChecksumDiff.retired ∧ only_memoizes ChecksumDiff.common.
Proof.
  split; [apply ChecksumDiffMore.new_memo|].
  split; [apply ChecksumDiffMore.deleted_memo|].
  split; [apply ChecksumDiffMore.retired_memo|apply ChecksumDiffMore.common_memo].
Qed.

Lemma categories_only_memoize_witness :
  ∃ deleted self',
    ChecksumDiff.deleted scenario_A = Some (deleted, self') ∧
    same_but_memo scenario_A self'.
Proof.
  destruct (ChecksumDiff.deleted scenario_A) as [[deleted self']|] eqn:E.
  - exists deleted, self'. split; [done|].
    apply (proj1 (proj2 categories_only_memoize) scenario_A deleted self' E).
  - vm_compute in E. discriminate E.
Defined.

(** X15. On a newly built differ, [new] and [common] split the side-1
    snapshot map of the non-retired resources: [new] holds the entries
    whose key side 2 lacks, [common] the entries whose key side 2 has,
    each with the side-1 entry, so every side-1 key is in exactly one of
    the two. *)
Theorem new_and_common_split_side_1 r1 r2 idn v :
  ∃ new common self1 self2,
    ChecksumDiff.new (ChecksumDiff.__init__ r1 r2 idn v) = Some (new, self1) ∧
    ChecksumDiff.common (ChecksumDiff.__init__ r1 r2 idn v) = Some (common, self2) ∧
    (∀ k, new !! k =
       if bool_decide (k ∈ dom (active_map idn r2)) then None
       else active_map idn r1 !! k) ∧
    (∀ k, common !! k =
       if bool_decide (k ∈ dom (active_map idn r2)) then active_map idn r1 !! k
       else None) ∧
    dom new ∪ dom common = dom (active_map idn r1) ∧
    dom new ## dom common.
Proof.
  set (m1 := active_map idn r1). set (m2 := active_map idn r2).
  destruct (ChecksumDiffFacts.comprehension_const
              (elements (dom m1 ∖ dom m2)) m1
              (fun _ => ret true) (fun _ => ChecksumDiff.resources1_map)
              (fun _ => true) (loaded r1 r2 idn v)) as (new & Hnew & Hlnew);
    [done|done| |].
  { intros k [Hk _]%elem_of_elements%elem_of_difference _. by apply elem_of_dom. }
  destruct (ChecksumDiffFacts.comprehension_const
              (elements (dom m1 ∩ dom m2)) m1
              (fun _ => ret true) (fun _ => ChecksumDiff.resources1_map)
              (fun _ => true) (loaded r1 r2 idn v)) as (common & Hcom & Hlcom);
    [done|done| |].
  { intros k [Hk _]%elem_of_elements%elem_of_intersection _. by apply elem_of_dom. }
  assert (∀ k, new !! k = if bool_decide (k ∈ dom m2) then None else m1 !! k)
    as Hnew'.
  { intros k. rewrite Hlnew, andb_true_r.
    case_bool_decide as H1; case_bool_decide as H2; try done.
    - apply elem_of_elements, elem_of_difference in H1 as [_ H1]. done.
    - symmetry. apply not_elem_of_dom. intros Hk. apply H1.
      by apply elem_of_elements, elem_of_difference. }
  assert (∀ k, common !! k = if bool_decide (k ∈ dom m2) then m1 !! k else None)
    as Hcom'.
  { intros k. rewrite Hlcom, andb_true_r.
    case_bool_decide as H1; case_bool_decide as H2; try done.
    - apply elem_of_elements, elem_of_intersection in H1 as [_ H1]. done.
    - symmetry. apply not_elem_of_dom. intros Hk. apply H1.
      by apply elem_of_elements, elem_of_intersection. }
  exists new, common, (loaded r1 r2 idn v), (loaded r1 r2 idn v).
  split; [by rewrite ChecksumDiffFacts.new_fresh|].
  split; [by rewrite ChecksumDiffFacts.common_fresh|].
  split; [done|]. split; [done|]. split.
  - apply set_eq. intros k.
    rewrite elem_of_union, !elem_of_dom, Hnew', Hcom'.
    case_bool_decide; split.
    + intros [H'|H']; [by apply is_Some_None in H'|done].
    + by right.
    + intros [H'|H']; [done|by apply is_Some_None in H'].
    + by left.
  - intros k. rewrite !elem_of_dom, Hnew', Hcom'.
    case_bool_decide; intros H1 H2;
      [by apply is_Some_None in H1|by apply is_Some_None in H2].
Qed.

(** X16. On a newly built differ, the [retired] category holds the
    entries of the side-2 ['retired'] snapshot map whose key the side-1
    ['retired'] snapshot map lacks.  Both of these maps being built from
    the non-retired resources, these are the side-2 keys that side 1
    lacks, and [deleted], which leaves the [retired] keys out, is empty. *)
Theorem retired_and_deleted_of_new_differ r1 r2 idn v :
  ∃ retired self',
    ChecksumDiff.retired (ChecksumDiff.__init__ r1 r2 idn v)
      = Some (retired, self') ∧
    dom retired = dom (ChecksumDiff.get_resources_map idn r2).2
                  ∖ dom (ChecksumDiff.get_resources_map idn r1).2 ∧
    dom retired = dom (active_map idn r2) ∖ dom (active_map idn r1) ∧
    fst <$> ChecksumDiff.deleted (ChecksumDiff.__init__ r1 r2 idn v) = Some ∅.
Proof.
  destruct (ChecksumDiffFacts.retired_fresh r1 r2 idn v)
    as (retired & self' & Hret & Hdom).
  exists retired, self'. split; [done|]. split; [done|]. split; [done|].
  apply ChecksumDiffFacts.deleted_is_empty.
Qed.

(** ** The result mapping *)

(** X18. The result that [prepare] stores has the entries [new],
    [removed], [retired], [changed] and [smart_changed], in this order,
    followed by [same] and [smart_same] exactly when the verbosity is at
    least 1. *)
Theorem prepare_result_keys (self self' : ChecksumDiff.t) :
  ChecksumDiff.prepare self = Some (tt, self') →
  dict_keys (ChecksumDiff.result self') =
    ["new"; "removed"; "retired"; "changed"; "smart_changed"]
    ++ (if 1 <=? ChecksumDiff.verbosity self
        then ["same"; "smart_same"] else []).
Proof.
  unfold ChecksumDiff.prepare.
  unfold bind at 1.
  destruct (ChecksumDiff.new self) as [[n s1]|] eqn:E1; [|done].
  unfold bind at 1. unfold read at 1.
  unfold bind at 1.
  destruct (ChecksumDiff.deleted s1) as [[d s2]|] eqn:E2; [|done].
  unfold bind at 1. unfold read at 1.
  unfold bind at 1.
  destruct (ChecksumDiff.retired s2) as [[r s3]|] eqn:E3; [|done].
  apply ChecksumDiffMore.new_memo in E1 as (_&_&_&V1&_).
  apply ChecksumDiffMore.deleted_memo in E2 as (_&_&_&V2&_).
  apply ChecksumDiffMore.retired_memo in E3 as (_&_&_&V3&_).
  unfold bind at 1. unfold read at 1.
  unfold bind at 1. unfold update at 1.
  unfold bind at 1. unfold read at 1.
  unfold ChecksumDiff.include_same, ChecksumDiff.is_verbose, id.
  cbn [ChecksumDiff.verbosity ChecksumDiff.set_result].
  rewrite V3, V2, V1.
  destruct (1 <=? ChecksumDiff.verbosity self).
  - unfold bind, update. by intros [= <-].
  - unfold ret. by intros [= <-].
Qed.

Lemma prepare_result_keys_witness :
  ∃ self',
    ChecksumDiff.prepare scenario_A = Some (tt, self') ∧
    dict_keys (ChecksumDiff.result self') =
      ["new"; "removed"; "retired"; "changed"; "smart_changed"; "same"; "smart_same"].
Proof.
  destruct (ChecksumDiff.prepare scenario_A) as [[[] self']|] eqn:E.
  - exists self'. split; [done|]. apply (prepare_result_keys scenario_A self' E).
  - vm_compute in E. discriminate E.
Defined.

Lemma for_each_fails {S A} (l : list A) (body : A → method S unit) x :
  x ∈ l → (∀ self, body x self = None) → ∀ self, for_each l body self = None.
Proof.
  intros Hin Hfail. induction l as [|y l IH]; intros self; [by inv Hin|].
  cbn [for_each]. unfold bind.
  apply elem_of_cons in Hin as [<-|Hin]; [by rewrite Hfail|].
  destruct (body y self) as [[[] self']|]; [|done]. by apply IH.
Qed.

(** X19. [process] needs the checksums of every resource that both
    sides have: on a newly built differ it raises when, for an identity
    key of both active snapshot maps, the stored checksums of either
    resource are null or lack the ['standard'] or the ['smart'] key,
    whatever [refresh] is. *)
Theorem process_needs_checksums r1 r2 idn v refresh k entry1 entry2 :
  active_map idn r1 !! k = Some entry1 →
  active_map idn r2 !! k = Some entry2 →
  ChecksumDiff.checksum_of entry1 "standard" = None ∨
  ChecksumDiff.checksum_of entry2 "standard" = None ∨
  ChecksumDiff.checksum_of entry1 "smart" = None ∨
  ChecksumDiff.checksum_of entry2 "smart" = None →
  ChecksumDiff.process refresh (ChecksumDiff.__init__ r1 r2 idn v) = None.
Proof.
  intros H1 H2 Hmissing.
  destruct (ChecksumDiffFacts.comprehension_const
              (elements (dom (active_map idn r1) ∩ dom (active_map idn r2)))
              (active_map idn r1)
              (fun _ => ret true) (fun _ => ChecksumDiff.resources1_map)
              (fun _ => true) (loaded r1 r2 idn v)) as (common & Hcom & Hlcom);
    [done|done| |].
  { intros k' [Hk _]%elem_of_elements%elem_of_intersection _. by apply elem_of_dom. }
  assert (common !! k = Some entry1) as Hk.
  { rewrite Hlcom, andb_true_r, bool_decide_eq_true_2; [done|].
    apply elem_of_elements, elem_of_intersection. split; by apply elem_of_dom. }
  assert (ChecksumDiff.populate_diff_from_common
            (ChecksumDiff.__init__ r1 r2 idn v) = None) as Hpop.
  { unfold ChecksumDiff.populate_diff_from_common. unfold bind at 1.
    rewrite ChecksumDiffFacts.common_fresh, Hcom.
    unfold bind at 1.
    change (ChecksumDiff.resources1_map (loaded r1 r2 idn v))
      with (Some (active_map idn r1, loaded r1 r2 idn v)).
    unfold bind at 1.
    change (ChecksumDiff.resources2_map (loaded r1 r2 idn v))
      with (Some (active_map idn r2, loaded r1 r2 idn v)).
    apply (for_each_fails _ _ (k, entry1)).
    - by apply elem_of_map_to_list.
    - intros self. unfold bind, try, read, update, ret. rewrite H1, H2.
      cbv beta iota.
      destruct (ChecksumDiff.checksum_of entry1 "standard") as [s1|]; [|done].
      destruct (ChecksumDiff.checksum_of entry2 "standard") as [s2|]; [|done].
      destruct Hmissing as [?|[?|[Hs|Hs]]]; [done|done|..].
      all: cbv beta iota; case_bool_decide;
        [|destruct (ChecksumDiff.include_same self)];
        cbv beta iota; rewrite ?Hs; try done;
        destruct (ChecksumDiff.checksum_of entry1 "smart");
        cbv beta iota; rewrite ?Hs; done. }
  destruct refresh;
    unfold ChecksumDiff.process, bind, update, ret, read;
    cbn [ChecksumDiff.result ChecksumDiff.set_result ChecksumDiff.__init__].
  - change (ChecksumDiff.populate_diff_from_common (ChecksumDiff.__init__ r1 r2 idn v))
      with (ChecksumDiff.populate_diff_from_common
              (ChecksumDiff.set_result [] (ChecksumDiff.__init__ r1 r2 idn v))) in Hpop.
    by rewrite Hpop.
  - by rewrite Hpop.
Qed.

Lemma process_needs_checksums_witness :
  ChecksumDiff.process false
    (ChecksumDiff.__init__
       [{| res_id := 1; res_attrs := {["mnemonic" := "a"]}; res_retired := false;
           res_checksums := Some {["standard" := Some "h1"]} |}]
       [concept 3 "a" "h1" false] "mnemonic" 0) = None.
Proof.
  apply (process_needs_checksums _ _ "mnemonic" 0 false (Some "a")
           {| info_checksums := Some {["standard" := Some "h1"]}; info_id := 1 |}
           (info_of (concept 3 "a" "h1" false))).
  - vm_compute. reflexivity.
  - vm_compute. reflexivity.
  - right. right. left. vm_compute. reflexivity.
Defined.

Section populate_facts.
Import ChecksumDiff.

Lemma populate_unfold :
  populate_diff_from_common =
  (let! common := common in
   let! resources1_map := resources1_map in
   let! resources2_map := resources2_map in
   for_each (map_to_list common) (populate_item resources1_map resources2_map)).
Proof. reflexivity. Qed.

Lemma checksum_changed_Some (name : string) (m2 : resource_map) (k : key)
    (entry1 : info) (b : bool) :
  checksum_changed name m2 (k, entry1) = Some b →
  ∃ entry2 c1 c2,
    m2 !! k = Some entry2 ∧ checksum_of entry1 name = Some c1 ∧
    checksum_of entry2 name = Some c2 ∧ b = bool_decide (c1 ≠ c2).
Proof.
  unfold checksum_changed.
  intros (entry2 & H2 & (c1 & Hc1 & (c2 & Hc2 & [= <-])%bind_Some)%bind_Some)%bind_Some.
  by exists entry2, c1, c2.
Qed.

Lemma compared_Some (name : string) (m1 m2 : resource_map) (k : key) (b : bool) :
  compared name m1 m2 k = Some b →
  ∃ entry1 entry2 c1 c2,
    m1 !! k = Some entry1 ∧ m2 !! k = Some entry2 ∧
    checksum_of entry1 name = Some c1 ∧ checksum_of entry2 name = Some c2 ∧
    b = bool_decide (c1 ≠ c2).
Proof.
  unfold compared. intros (entry1 & H1 & Hc)%bind_Some.
  apply checksum_changed_Some in Hc as (entry2 & c1 & c2 & ? & ? & ? & ?).
  by exists entry1, entry2, c1, c2.
Qed.

(** One round of the loop raises unless both comparisons are defined, and
    then sorts the item. *)
Lemma populate_item_spec (m1 m2 : resource_map) (k : key) (i : info) (self : t) :
  populate_item m1 m2 (k, i) self =
    match compared "standard" m1 m2 k, compared "smart" m1 m2 k with
    | Some _, Some _ => Some (tt, sort_item m1 m2 (k, i) self)
    | _, _ => None
    end.
Proof.
  unfold sort_item, compared, checksum_changed, populate_item.
  unfold bind, try, read, update, ret. cbn [fst snd].
  destruct (m1 !! k) as [entry1|]; [|done]. cbn [mbind option_bind].
  destruct (m2 !! k) as [entry2|]; [|done]. cbn [mbind option_bind].
  destruct (checksum_of entry1 "standard") as [s1|]; [|done].
  cbn [mbind option_bind].
  destruct (checksum_of entry2 "standard") as [s2|]; [|done].
  cbn [mbind option_bind].
  destruct self.
  unfold include_same, is_verbose, set_changed_standard, set_changed_smart,
    set_same, set_same_smart.
  cbn [verbosity changed_standard changed_smart same same_smart].
  destruct (checksum_of entry1 "smart") as [c1|]; cbn [mbind option_bind];
    [destruct (checksum_of entry2 "smart") as [c2|]; cbn [mbind option_bind]|];
    repeat case_bool_decide; destruct (1 <=? verbosity0) eqn:E;
    repeat (progress (cbn; rewrite ?E)); reflexivity.
Qed.

Lemma populate_item_sorts (m1 m2 : resource_map) (k : key) (i : info) (self : t) :
  is_Some (compared "standard" m1 m2 k) →
  is_Some (compared "smart" m1 m2 k) →
  populate_item m1 m2 (k, i) self = Some (tt, sort_item m1 m2 (k, i) self).
Proof. intros [bs Hs] [bm Hm]. by rewrite populate_item_spec, Hs, Hm. Qed.

Lemma sort_item_fields (m1 m2 : resource_map) (item : key * info) (self : t) :
  include_same (sort_item m1 m2 item self) = include_same self ∧
  changed_standard (sort_item m1 m2 item self) =
    (if decide (compared "standard" m1 m2 item.1 = Some true)
     then <[item.1 := item.2]> (changed_standard self) else changed_standard self) ∧
  changed_smart (sort_item m1 m2 item self) =
    (if decide (compared "smart" m1 m2 item.1 = Some true)
     then <[item.1 := item.2]> (changed_smart self) else changed_smart self) ∧
  same (sort_item m1 m2 item self) =
    (if decide (include_same self = true ∧
                compared "standard" m1 m2 item.1 = Some false)
     then <[item.1 := item.2]> (same self) else same self) ∧
  same_smart (sort_item m1 m2 item self) =
    (if decide (include_same self = true ∧
                compared "smart" m1 m2 item.1 = Some false)
     then <[item.1 := item.2]> (same_smart self) else same_smart self).
Proof.
  unfold sort_item. destruct self.
  unfold include_same, is_verbose, set_changed_standard, set_changed_smart,
    set_same, set_same_smart.
  cbn [verbosity changed_standard changed_smart same same_smart].
  destruct (compared "standard" m1 m2 item.1) as [[]|],
    (compared "smart" m1 m2 item.1) as [[]|];
    destruct (1 <=? verbosity0) eqn:E;
    repeat (progress
      (cbn [verbosity changed_standard changed_smart same same_smart];
       rewrite ?E));
    repeat split; repeat case_decide; try done; intuition congruence.
Qed.

Lemma filter_insert_union (P : key * info → Prop) `{!∀ x, Decision (P x)}
    (k : key) (i : info) (M m : resource_map) :
  M !! k = None →
  filter P M ∪ (if decide (P (k, i)) then <[k := i]> m else m) =
  filter P (<[k := i]> M) ∪ m.
Proof.
  intros HM. case_decide as HP.
  - rewrite map_filter_insert_True by done.
    rewrite <-insert_union_l. apply eq_sym, insert_union_r.
    by apply map_lookup_filter_None_2; left.
  - rewrite map_filter_insert_False by done.
    by rewrite delete_id.
Qed.

Lemma populate_loop (m1 m2 : resource_map) (l : list (key * info)) :
  NoDup l.*1 →
  Forall (fun item =>
    is_Some (compared "standard" m1 m2 item.1) ∧
    is_Some (compared "smart" m1 m2 item.1)) l →
  ∀ self,
  ∃ self',
    for_each l (populate_item m1 m2) self = Some (tt, self') ∧
    changed_standard self' =
      filter (fun item => compared "standard" m1 m2 item.1 = Some true)
        (list_to_map l) ∪ changed_standard self ∧
    changed_smart self' =
      filter (fun item => compared "smart" m1 m2 item.1 = Some true)
        (list_to_map l) ∪ changed_smart self ∧
    same self' =
      filter (fun item => include_same self = true ∧
                          compared "standard" m1 m2 item.1 = Some false)
        (list_to_map l) ∪ same self ∧
    same_smart self' =
      filter (fun item => include_same self = true ∧
                          compared "smart" m1 m2 item.1 = Some false)
        (list_to_map l) ∪ same_smart self.
Proof.
  induction l as [|[k i] l IH]; intros Hnd Hall self.
  - exists self. cbn [for_each list_to_map foldr]. rewrite !map_filter_empty.
    by rewrite !(left_id_L ∅ (∪)).
  - rewrite fmap_cons in Hnd. apply NoDup_cons in Hnd as [Hk Hnd].
    cbn [fst] in Hk. apply Forall_cons in Hall as [(Hs & Hm) Hall].
    cbn [fst snd] in Hs, Hm.
    destruct (IH Hnd Hall (sort_item m1 m2 (k, i) self))
      as (self' & Hrun & Hcs & Hcm & Hsame & Hsm).
    destruct (sort_item_fields m1 m2 (k, i) self) as (Hinc & Fcs & Fcm & Fsame & Fsm).
    exists self'. split.
    { cbn [for_each]. unfold bind. by rewrite (populate_item_sorts m1 m2 k i self). }
    assert (list_to_map (M := resource_map) l !! k = None) as Hfresh
      by by apply not_elem_of_list_to_map_1.
    rewrite Hcs, Hcm, Hsame, Hsm, Hinc, Fcs, Fcm, Fsame, Fsm.
    rewrite list_to_map_cons. cbn [fst snd].
    repeat split;
      exact (filter_insert_union (fun item => _ (item.1)) k i _ _ Hfresh)
      || exact (filter_insert_union _ k i _ _ Hfresh).
Qed.

End populate_facts.

Lemma filter_lookup_ext (P Q : key * info → Prop)
    `{!∀ x, Decision (P x)} `{!∀ x, Decision (Q x)} (c m : resource_map) :
  (∀ k e, c !! k = Some e ∧ P (k, e) ↔ m !! k = Some e ∧ Q (k, e)) →
  filter P c = filter Q m.
Proof.
  intros Hext. apply map_eq. intros k. apply option_eq. intros e.
  rewrite !map_lookup_filter_Some. apply Hext.
Qed.

(** X20. [populate_diff_from_common] on a newly built differ.  When
    every side-1 resource whose identity key side 2 has too carries, as
    its side-2 counterpart does, the ['standard'] and the ['smart']
    checksum, the method returns and has sorted the common keys: a key is
    in [changed_standard] exactly when the two ['standard'] checksums
    differ, and in [same] exactly when they are equal and the verbosity
    is at least 1; [changed_smart] and [same_smart] hold the same for the
    ['smart'] checksums.  The entries are those of side 1, and with a
    verbosity of 0 both [same] maps stay empty. *)
Theorem populate_sorts_common r1 r2 idn v :
  map_Forall (fun k entry1 =>
      k ∈ dom (active_map idn r2) →
      is_Some (checksum_changed "standard" (active_map idn r2) (k, entry1)) ∧
      is_Some (checksum_changed "smart" (active_map idn r2) (k, entry1)))
    (active_map idn r1) →
  ∃ self',
    ChecksumDiff.populate_diff_from_common (ChecksumDiff.__init__ r1 r2 idn v)
      = Some (tt, self') ∧
    ChecksumDiff.changed_standard self' =
      filter (fun item =>
                checksum_changed "standard" (active_map idn r2) item = Some true)
        (active_map idn r1) ∧
    ChecksumDiff.changed_smart self' =
      filter (fun item =>
                checksum_changed "smart" (active_map idn r2) item = Some true)
        (active_map idn r1) ∧
    ChecksumDiff.same self' =
      (if 1 <=? v
       then filter (fun item =>
                checksum_changed "standard" (active_map idn r2) item = Some false)
              (active_map idn r1)
       else ∅) ∧
    ChecksumDiff.same_smart self' =
      (if 1 <=? v
       then filter (fun item =>
                checksum_changed "smart" (active_map idn r2) item = Some false)
              (active_map idn r1)
       else ∅).
Proof.
  intros Hwf.
  destruct (ChecksumDiffFacts.comprehension_const
              (elements (dom (active_map idn r1) ∩ dom (active_map idn r2)))
              (active_map idn r1)
              (fun _ => ret true) (fun _ => ChecksumDiff.resources1_map)
              (fun _ => true) (loaded r1 r2 idn v)) as (common & Hcom & Hlcom);
    [done|done| |].
  { intros k' [Hk _]%elem_of_elements%elem_of_intersection _. by apply elem_of_dom. }
  assert (∀ k e, common !! k = Some e ↔
                 active_map idn r1 !! k = Some e ∧ k ∈ dom (active_map idn r2))
    as Hcommon.
  { intros k e. rewrite Hlcom, andb_true_r. case_bool_decide as Hk;
      rewrite elem_of_elements, elem_of_intersection in Hk.
    - split; [by intros ?; split; [|apply Hk]|by intros []].
    - split; [done|]. intros [H1 H2]. destruct Hk. split; [|done].
      apply elem_of_dom. by eexists. }
  assert (∀ name k e b,
            checksum_changed name (active_map idn r2) (k, e) = Some b →
            k ∈ dom (active_map idn r2)) as Hdom.
  { intros name k e b (e2 & _ & _ & H2 & _)%checksum_changed_Some.
    apply elem_of_dom. by eexists. }
  assert (∀ name k e, active_map idn r1 !! k = Some e →
            compared name (active_map idn r1) (active_map idn r2) k =
            checksum_changed name (active_map idn r2) (k, e)) as Hcmp.
  { intros name k e H1. unfold compared. by rewrite H1. }
  destruct (populate_loop (active_map idn r1) (active_map idn r2)
              (map_to_list common) (NoDup_fst_map_to_list common))
    with (self := loaded r1 r2 idn v)
    as (self' & Hrun & Hcs & Hcm & Hsame & Hsm).
  { apply Forall_forall. intros [k e] [H1 H2]%elem_of_map_to_list%Hcommon.
    cbn [fst]. rewrite !(Hcmp _ k e H1). by apply (Hwf k e). }
  exists self'. split.
  { rewrite populate_unfold. unfold bind at 1.
    rewrite ChecksumDiffFacts.common_fresh, Hcom.
    unfold bind at 1.
    change (ChecksumDiff.resources1_map (loaded r1 r2 idn v))
      with (Some (active_map idn r1, loaded r1 r2 idn v)).
    unfold bind at 1.
    change (ChecksumDiff.resources2_map (loaded r1 r2 idn v))
      with (Some (active_map idn r2, loaded r1 r2 idn v)).
    exact Hrun. }
  rewrite list_to_map_to_list in Hcs, Hcm, Hsame, Hsm.
  change (ChecksumDiff.changed_standard (loaded r1 r2 idn v)) with (∅ : resource_map) in Hcs.
  change (ChecksumDiff.changed_smart (loaded r1 r2 idn v)) with (∅ : resource_map) in Hcm.
  change (ChecksumDiff.same (loaded r1 r2 idn v)) with (∅ : resource_map) in Hsame.
  change (ChecksumDiff.same_smart (loaded r1 r2 idn v)) with (∅ : resource_map) in Hsm.
  change (ChecksumDiff.include_same (loaded r1 r2 idn v)) with (1 <=? v) in Hsame, Hsm.
  rewrite (right_id_L ∅ (∪)) in Hcs, Hcm, Hsame, Hsm.
  rewrite Hcs, Hcm, Hsame, Hsm.
  split; [|split; [|split]].
  - apply filter_lookup_ext. intros k e. rewrite Hcommon. cbn [fst].
    split.
    + intros [[H1 ?] Hc]. by rewrite (Hcmp _ k e H1) in Hc.
    + intros [H1 Hc]. rewrite (Hcmp _ k e H1). repeat split; try done.
      by eapply Hdom.
  - apply filter_lookup_ext. intros k e. rewrite Hcommon. cbn [fst].
    split.
    + intros [[H1 ?] Hc]. by rewrite (Hcmp _ k e H1) in Hc.
    + intros [H1 Hc]. rewrite (Hcmp _ k e H1). repeat split; try done.
      by eapply Hdom.
  - destruct (1 <=? v).
    + apply filter_lookup_ext. intros k e. rewrite Hcommon. cbn [fst].
      split.
      * intros [[H1 ?] [_ Hc]]. by rewrite (Hcmp _ k e H1) in Hc.
      * intros [H1 Hc]. rewrite (Hcmp _ k e H1). repeat split; try done.
        by eapply Hdom.
    + apply map_eq. intros k. apply option_eq. intros e.
      rewrite map_lookup_filter_Some, lookup_empty.
      split; [by intros [_ [? _]]|done].
  - destruct (1 <=? v).
    + apply filter_lookup_ext. intros k e. rewrite Hcommon. cbn [fst].
      split.
      * intros [[H1 ?] [_ Hc]]. by rewrite (Hcmp _ k e H1) in Hc.
      * intros [H1 Hc]. rewrite (Hcmp _ k e H1). repeat split; try done.
        by eapply Hdom.
    + apply map_eq. intros k. apply option_eq. intros e.
      rewrite map_lookup_filter_Some, lookup_empty.
      split; [by intros [_ [? _]]|done].
Qed.

Lemma populate_sorts_common_witness :
  ∃ self',
    ChecksumDiff.populate_diff_from_common
      (ChecksumDiff.__init__
         [concept 1 "a" "h1" false; concept 2 "b" "h2" false; concept 5 "d" "h4" false]
         [concept 3 "a" "h9" false; concept 4 "c" "h3" false; concept 6 "d" "h4" false]
         "mnemonic" 1)
      = Some (tt, self') ∧
    dom (ChecksumDiff.changed_standard self') = {[Some "a"]} ∧
    dom (ChecksumDiff.same self') = {[Some "d"]}.
Proof.
  destruct (populate_sorts_common
              [concept 1 "a" "h1" false; concept 2 "b" "h2" false; concept 5 "d" "h4" false]
              [concept 3 "a" "h9" false; concept 4 "c" "h3" false; concept 6 "d" "h4" false]
              "mnemonic" 1) as (self' & Hrun & Hcs & _ & Hsame & _).
  - apply (bool_decide_unpack _). vm_compute. exact I.
  - exists self'. split; [exact Hrun|]. rewrite Hcs, Hsame.
    split; apply (bool_decide_unpack _); vm_compute; exact I.
Defined.

(** ** Memoized values are stable *)

Module ChecksumDiffStable.
Import ChecksumDiff.




















End ChecksumDiffStable.

(** ** Computing the result again *)

Section process_again.
Import ChecksumDiff ChecksumDiffStable ChecksumDiffMore.
Context (m1 m2 : resource_map).














End process_again.

Section process_again_2.
Import ChecksumDiff ChecksumDiffStable ChecksumDiffMore.





End process_again_2.

(** ** Idempotence of process *)


